(** * A model of frontend/static/js/main.js

    The page script of the real-time speech processor is one DOMContentLoaded
    closure holding five mutable variables (mediaRecorder, audioChunks, ws,
    sessionId, keywords) and a set of event handlers.  The embedding below
    keeps that shape: the closure's variables and the browser objects they
    refer to form a [State]; every handler of the script is a function on
    [State]; the browser's event loop is the environment that picks the next
    [Event].

    Part I models the keyword highlighter, part II the session handlers.

    Scope.  Strings are sequences of one-byte code units.  A keyword's word is
    interpreted as a regular expression only when it is a plain word (ASCII,
    no metacharacter); for any other word, and for the parsing of markup that
    a message splices into a transcription line, the session model takes the
    browser's answer as a parameter of the page.  Values the script only
    passes through (streams, JSON bodies, log arguments) are kept abstract or
    dropped.  The keyword list shown in the page is rebuilt from [keywords] by
    renderKeywords after every change and is not a separate part of the state.
    Two exceptions are modelled: the one ws.send raises on a connecting
    socket, and the SyntaxError of RegExp on a cached word it rejects. *)

From Stdlib Require Import Ascii String ZArith Lia Bool.
From stdpp Require Import base list strings.

Local Open Scope string_scope.
Local Open Scope list_scope.

(* stdpp keeps [String.append] folded; the proofs below compute with it. *)
#[local] Arguments String.append !s1 s2 : simpl nomatch.

(** ** Part I: highlightKeywordsInText *)

Module Highlight.

(** A cached keyword, as the backend serialises it. *)
Record Keyword := {
  kw_id : Z;
  kw_word : string;
  kw_talking_point : string;
  kw_is_active : bool
}.

(** The double quote character, code 34. *)
Definition dquote : string := String (ascii_of_nat 34) EmptyString.

(** The two halves of the replacement template
    [<span class="highlight">$1</span>]. *)
Definition span_open : string :=
  "<span class=" +:+ dquote +:+ "highlight" +:+ dquote +:+ ">".

Definition span_close : string := "</span>".

(** The template instantiated with capture group 1. *)
Definition wrap (m : string) : string := span_open +:+ m +:+ span_close.

(** Characters that have a meaning in a regular expression source.  A word
    free of them, and made of ASCII characters only, denotes itself when it is
    spliced into [new RegExp(`(${kw.word})`, 'gi')]. *)
Definition regex_meta (c : ascii) : bool :=
  existsb (Ascii.eqb c)
    ["\"; "^"; "$"; "."; "|"; "?"; "*"; "+"; "("; ")"; "["; "]"; "{"; "}"]%char.

Definition is_ascii (c : ascii) : bool := (nat_of_ascii c <? 128)%nat.

Fixpoint literal_word (w : string) : bool :=
  match w with
  | EmptyString => true
  | String c w' => is_ascii c && negb (regex_meta c) && literal_word w'
  end.

(** Canonicalize of the [i] flag (no [u] flag): a character is compared
    through its upper-case form.  On the ASCII range that maps a..z to A..Z
    and nothing else; a character above the ASCII range never canonicalizes
    into it, so against an ASCII pattern character it is compared as itself. *)
Definition to_upper (c : ascii) : ascii :=
  let n := nat_of_ascii c in
  if ((97 <=? n) && (n <=? 122))%nat then ascii_of_nat (n - 32) else c.

Definition canon_eqb (c d : ascii) : bool := Ascii.eqb (to_upper c) (to_upper d).

(** [match_at p s]: the pattern [(p)] matched against the start of [s];
    the result is the text captured by group 1 (in the subject's own case). *)
Fixpoint match_at (p s : string) : option string :=
  match p with
  | EmptyString => Some EmptyString
  | String c p' =>
      match s with
      | EmptyString => None
      | String d s' =>
          if canon_eqb c d
          then match match_at p' s' with
               | Some m => Some (String d m)
               | None => None
               end
          else None
      end
  end.

(** [String.prototype.replace] with a global regular expression for the
    literal pattern [p]: the subject is scanned from the left; at a position
    where the pattern matches, the wrapped match is emitted and the scan
    resumes behind the match ([skip] counts the characters of the match still
    to pass); an empty match emits the wrapper and advances by one character,
    so an empty pattern also matches at the end of the subject. *)
Fixpoint replace_from (p : string) (skip : nat) (s : string) : string :=
  match s with
  | EmptyString =>
      match skip, p with
      | O, EmptyString => wrap EmptyString
      | _, _ => EmptyString
      end
  | String c s' =>
      match skip with
      | S k => replace_from p k s'
      | O =>
          match match_at p s with
          | Some m =>
              match String.length m with
              | O => wrap m +:+ String c (replace_from p 0 s')
              | S k => wrap m +:+ replace_from p k s'
              end
          | None => String c (replace_from p 0 s')
          end
      end
  end.

Definition replace_all (p s : string) : string := replace_from p 0 s.

(** The body of the forEach callback: one keyword applied to the text built
    so far.  [None] stands for a word outside the literal fragment, whose
    regular expression this development does not interpret. *)
Definition highlight_step (acc : option string) (kw : Keyword) : option string :=
  match acc with
  | Some t => if literal_word (kw_word kw) then Some (replace_all (kw_word kw) t) else None
  | None => None
  end.

(** [highlightKeywordsInText(text)], with the closure variable [keywords]
    made a parameter.  The keywords are applied in the order of the array. *)
Definition highlightKeywordsInText (keywords : list Keyword) (text : string) : option string :=
  fold_left highlight_step keywords (Some text).

(** A keyword as the add handler posts it: active, with the given word. *)
Definition keyword_of (i : Z) (w : string) : Keyword :=
  {| kw_id := i; kw_word := w; kw_talking_point := EmptyString; kw_is_active := true |}.

(** *** Vocabulary for the statements about the highlighter *)

(** The pattern [(p)] with flags [gi] matches somewhere in [s]. *)
Fixpoint occurs (p s : string) : bool :=
  match match_at p s with
  | Some _ => true
  | None =>
      match s with
      | EmptyString => false
      | String _ s' => occurs p s'
      end
  end.

(** The pattern matches at no position that starts inside [pre], when [pre]
    is followed by [tail]. *)
Fixpoint clear_before (p pre tail : string) : bool :=
  match pre with
  | EmptyString => true
  | String _ pre' =>
      match match_at p (pre +:+ tail) with
      | Some _ => false
      | None => clear_before p pre' tail
      end
  end.

(** No character of the pattern is a case variant of [c]. *)
Fixpoint avoids (c : ascii) (p : string) : bool :=
  match p with
  | EmptyString => true
  | String x p' => negb (canon_eqb x c) && avoids c p'
  end.

(** The number of opening highlight tags in a text. *)
Fixpoint count_open (s : string) : nat :=
  match s with
  | EmptyString => 0
  | String _ s' => (if String.prefix span_open s then 1 else 0) + count_open s'
  end.

(** The opening tag behind its first character and behind the tag name. *)
Definition open_attrs : string :=
  " class=" +:+ dquote +:+ "highlight" +:+ dquote +:+ ">".

(** What [new RegExp(`(${w})`, 'gi')] gives for a word outside the plain
    fragment: the constructor throws, or the expression exists and
    [replace] with the template is some function of the text. *)
Inductive RegExpResult :=
| SyntaxError
| Replaces (replace : string -> string).

(** The forEach callback for any word: a plain word is replaced as above, any
    other word as the browser's RegExp says.  [None] is a thrown SyntaxError,
    which ends the forEach and leaves highlightKeywordsInText. *)
Definition highlight_step_in (new_RegExp : string -> RegExpResult)
    (acc : option string) (kw : Keyword) : option string :=
  match acc with
  | Some t =>
      if literal_word (kw_word kw) then Some (replace_all (kw_word kw) t)
      else
        match new_RegExp (kw_word kw) with
        | SyntaxError => None
        | Replaces replace => Some (replace t)
        end
  | None => None
  end.

(** highlightKeywordsInText for any cached words, relative to the browser's
    RegExp on the words outside the plain fragment. *)
Definition highlightKeywordsInText_in (new_RegExp : string -> RegExpResult)
    (keywords : list Keyword) (text : string) : option string :=
  fold_left (highlight_step_in new_RegExp) keywords (Some text).

(** The characters of a text, in order. *)
Definition chars (s : string) : list ascii := list_ascii_of_string s.

(** The number of characters one wrapper adds around a match. *)
Definition marker_length : nat := String.length span_open + String.length span_close.

(** The keyword is a plain word that matches nowhere in the text. *)
Definition plain_absent (text : string) (kw : Keyword) : bool :=
  literal_word (kw_word kw) && negb (occurs (kw_word kw) text).

(** The keyword is a plain word. *)
Definition plain (kw : Keyword) : bool := literal_word (kw_word kw).

End Highlight.


Import Highlight.

(** ** Part II: the session handlers *)

Module Session.

(** *** Browser objects *)

(** [WebSocket.readyState]. *)
Inductive ReadyState := CONNECTING | OPEN | CLOSING | CLOSED.

Definition ReadyState_eqb (a b : ReadyState) : bool :=
  match a, b with
  | CONNECTING, CONNECTING | OPEN, OPEN | CLOSING, CLOSING | CLOSED, CLOSED => true
  | _, _ => false
  end.

(** The payload of a dataavailable event; its [size] is its length. *)
Definition Blob := list Byte.byte.

(** What [ws.send] is given: the JSON text
    [{type: 'set_speaker_type', speaker_type: v}] or a binary chunk. *)
Inductive Frame :=
| SetSpeakerType (speaker_type : string)
| Binary (data : Blob).

(** A WebSocket object: the address it was created for, its readyState and
    the frames handed to the network so far, oldest first. *)
Record WebSocket := {
  ws_url : string;
  readyState : ReadyState;
  ws_sent : list Frame
}.

Definition with_readyState (r : ReadyState) (w : WebSocket) : WebSocket :=
  {| ws_url := ws_url w; readyState := r; ws_sent := ws_sent w |}.

Definition with_frame (f : Frame) (w : WebSocket) : WebSocket :=
  {| ws_url := ws_url w; readyState := readyState w; ws_sent := ws_sent w ++ [f] |}.

(** [MediaRecorder.state]. *)
Inductive RecordingState := inactive | recording | paused.

(** A MediaRecorder object: its state, the MediaStream it records and whether
    it was built with the opus options or with the defaults. *)
Record MediaRecorder := {
  rec_state : RecordingState;
  rec_stream : nat;
  rec_opus : bool
}.

Definition with_rec_state (r : RecordingState) (m : MediaRecorder) : MediaRecorder :=
  {| rec_state := r; rec_stream := rec_stream m; rec_opus := rec_opus m |}.

(** A console call: its level and its fixed first argument. *)
Inductive LogEntry :=
| Log (msg : string)
| Warn (msg : string)
| Error (msg : string).

(** The children of [transcriptionDisplay]: the grey placeholder paragraph or
    a transcription line (whether it has the prospect styling, the speaker
    shown in bold, the highlighted text). *)
Inductive TranscriptNode :=
| TPlaceholder
| TLine (prospect : bool) (speaker : string) (html : string).

(** The children of [alertDisplay]: the grey placeholder paragraph, an alert
    box, or the green or red paragraph that reports an upload. *)
Inductive AlertNode :=
| APlaceholder
| AlertBox (keyword : string) (talking_point : option string) (full_text speaker : string)
| UploadNote (ok : bool) (detail : string).

(** A decoded inbound message, [JSON.parse(event.data)]. *)
Inductive Inbound :=
| Transcription (text speaker_type : string)
| Alert (keyword : string) (talking_point : option string) (full_text speaker_type : string)
| SelfTestResponse
| OtherType.

(** The three ways a fetch of the keyword API ends: [response.ok] with a JSON
    body, a response that is not ok, or a rejected promise. *)
Inductive Response (A : Type) :=
| RespOk (body : A)
| RespNotOk
| RespRejected.

Arguments RespOk {A} body.
Arguments RespNotOk {A}.
Arguments RespRejected {A}.

(** The two parts of the browser that displayTranscription relies on and
    that this development does not interpret: the RegExp constructor on a word
    outside the plain fragment, and the HTML parser on the markup of a line
    that contains the start of a paragraph tag, where it tells whether the
    parsed line holds a paragraph of class text-gray-500. *)
Record Engine := {
  new_RegExp : string -> RegExpResult;
  has_grey_paragraph : string -> bool
}.

(** What the script finds in the document it is loaded in: the scheme and
    host of [window.location], which it never changes, and, since the markup
    is not part of the sources, the initial settings of the controls and the
    initial children of the two display areas. *)
Record Page := {
  page_https : bool;
  page_host : string;
  page_speakerType : string;
  page_startDisabled : bool;
  page_stopDisabled : bool;
  page_transcription : list TranscriptNode;
  page_alerts : list AlertNode;
  page_engine : Engine
}.

(** *** The state

    The five closure variables come first.  Objects are kept in heaps
    ([recorders], [streams], [sockets]) and the variables hold indices into
    them, since a handler installed on one object reads the variables, not the
    object it was installed on.  [timers] lists the delays of the pending
    [setTimeout(connectWebSocket, d)] calls, oldest first; [pendingMic] counts
    the start handlers suspended at [await getUserMedia]. *)
Record State := {
  mediaRecorder : option nat;
  audioChunks : list Blob;
  ws : option nat;
  sessionId : string;
  keywords : list Keyword;
  recorders : list MediaRecorder;
  streams : list bool;
  sockets : list WebSocket;
  timers : list Z;
  pendingMic : nat;
  startDisabled : bool;
  stopDisabled : bool;
  speakerType : string;
  newKeywordInput : string;
  newTalkingPointInput : string;
  transcriptionDisplay : list TranscriptNode;
  alertDisplay : list AlertNode;
  console : list LogEntry;
  page : Page
}.

(** One setter per assignable field; the other fields are carried over. *)

Definition set_mediaRecorder (v : option nat) (s : State) : State :=
  {| mediaRecorder := v; audioChunks := audioChunks s; ws := ws s;
     sessionId := sessionId s; keywords := keywords s; recorders := recorders s;
     streams := streams s; sockets := sockets s; timers := timers s;
     pendingMic := pendingMic s; startDisabled := startDisabled s;
     stopDisabled := stopDisabled s; speakerType := speakerType s;
     newKeywordInput := newKeywordInput s;
     newTalkingPointInput := newTalkingPointInput s;
     transcriptionDisplay := transcriptionDisplay s; alertDisplay := alertDisplay s;
     console := console s; page := page s |}.

Definition set_audioChunks (v : list Blob) (s : State) : State :=
  {| mediaRecorder := mediaRecorder s; audioChunks := v; ws := ws s;
     sessionId := sessionId s; keywords := keywords s; recorders := recorders s;
     streams := streams s; sockets := sockets s; timers := timers s;
     pendingMic := pendingMic s; startDisabled := startDisabled s;
     stopDisabled := stopDisabled s; speakerType := speakerType s;
     newKeywordInput := newKeywordInput s;
     newTalkingPointInput := newTalkingPointInput s;
     transcriptionDisplay := transcriptionDisplay s; alertDisplay := alertDisplay s;
     console := console s; page := page s |}.

Definition set_ws (v : option nat) (s : State) : State :=
  {| mediaRecorder := mediaRecorder s; audioChunks := audioChunks s; ws := v;
     sessionId := sessionId s; keywords := keywords s; recorders := recorders s;
     streams := streams s; sockets := sockets s; timers := timers s;
     pendingMic := pendingMic s; startDisabled := startDisabled s;
     stopDisabled := stopDisabled s; speakerType := speakerType s;
     newKeywordInput := newKeywordInput s;
     newTalkingPointInput := newTalkingPointInput s;
     transcriptionDisplay := transcriptionDisplay s; alertDisplay := alertDisplay s;
     console := console s; page := page s |}.

Definition set_sessionId (v : string) (s : State) : State :=
  {| mediaRecorder := mediaRecorder s; audioChunks := audioChunks s; ws := ws s;
     sessionId := v; keywords := keywords s; recorders := recorders s;
     streams := streams s; sockets := sockets s; timers := timers s;
     pendingMic := pendingMic s; startDisabled := startDisabled s;
     stopDisabled := stopDisabled s; speakerType := speakerType s;
     newKeywordInput := newKeywordInput s;
     newTalkingPointInput := newTalkingPointInput s;
     transcriptionDisplay := transcriptionDisplay s; alertDisplay := alertDisplay s;
     console := console s; page := page s |}.

Definition set_keywords (v : list Keyword) (s : State) : State :=
  {| mediaRecorder := mediaRecorder s; audioChunks := audioChunks s; ws := ws s;
     sessionId := sessionId s; keywords := v; recorders := recorders s;
     streams := streams s; sockets := sockets s; timers := timers s;
     pendingMic := pendingMic s; startDisabled := startDisabled s;
     stopDisabled := stopDisabled s; speakerType := speakerType s;
     newKeywordInput := newKeywordInput s;
     newTalkingPointInput := newTalkingPointInput s;
     transcriptionDisplay := transcriptionDisplay s; alertDisplay := alertDisplay s;
     console := console s; page := page s |}.

Definition set_recorders (v : list MediaRecorder) (s : State) : State :=
  {| mediaRecorder := mediaRecorder s; audioChunks := audioChunks s; ws := ws s;
     sessionId := sessionId s; keywords := keywords s; recorders := v;
     streams := streams s; sockets := sockets s; timers := timers s;
     pendingMic := pendingMic s; startDisabled := startDisabled s;
     stopDisabled := stopDisabled s; speakerType := speakerType s;
     newKeywordInput := newKeywordInput s;
     newTalkingPointInput := newTalkingPointInput s;
     transcriptionDisplay := transcriptionDisplay s; alertDisplay := alertDisplay s;
     console := console s; page := page s |}.

Definition set_streams (v : list bool) (s : State) : State :=
  {| mediaRecorder := mediaRecorder s; audioChunks := audioChunks s; ws := ws s;
     sessionId := sessionId s; keywords := keywords s; recorders := recorders s;
     streams := v; sockets := sockets s; timers := timers s;
     pendingMic := pendingMic s; startDisabled := startDisabled s;
     stopDisabled := stopDisabled s; speakerType := speakerType s;
     newKeywordInput := newKeywordInput s;
     newTalkingPointInput := newTalkingPointInput s;
     transcriptionDisplay := transcriptionDisplay s; alertDisplay := alertDisplay s;
     console := console s; page := page s |}.

Definition set_sockets (v : list WebSocket) (s : State) : State :=
  {| mediaRecorder := mediaRecorder s; audioChunks := audioChunks s; ws := ws s;
     sessionId := sessionId s; keywords := keywords s; recorders := recorders s;
     streams := streams s; sockets := v; timers := timers s;
     pendingMic := pendingMic s; startDisabled := startDisabled s;
     stopDisabled := stopDisabled s; speakerType := speakerType s;
     newKeywordInput := newKeywordInput s;
     newTalkingPointInput := newTalkingPointInput s;
     transcriptionDisplay := transcriptionDisplay s; alertDisplay := alertDisplay s;
     console := console s; page := page s |}.

Definition set_timers (v : list Z) (s : State) : State :=
  {| mediaRecorder := mediaRecorder s; audioChunks := audioChunks s; ws := ws s;
     sessionId := sessionId s; keywords := keywords s; recorders := recorders s;
     streams := streams s; sockets := sockets s; timers := v;
     pendingMic := pendingMic s; startDisabled := startDisabled s;
     stopDisabled := stopDisabled s; speakerType := speakerType s;
     newKeywordInput := newKeywordInput s;
     newTalkingPointInput := newTalkingPointInput s;
     transcriptionDisplay := transcriptionDisplay s; alertDisplay := alertDisplay s;
     console := console s; page := page s |}.

Definition set_pendingMic (v : nat) (s : State) : State :=
  {| mediaRecorder := mediaRecorder s; audioChunks := audioChunks s; ws := ws s;
     sessionId := sessionId s; keywords := keywords s; recorders := recorders s;
     streams := streams s; sockets := sockets s; timers := timers s; pendingMic := v;
     startDisabled := startDisabled s; stopDisabled := stopDisabled s;
     speakerType := speakerType s; newKeywordInput := newKeywordInput s;
     newTalkingPointInput := newTalkingPointInput s;
     transcriptionDisplay := transcriptionDisplay s; alertDisplay := alertDisplay s;
     console := console s; page := page s |}.

Definition set_startDisabled (v : bool) (s : State) : State :=
  {| mediaRecorder := mediaRecorder s; audioChunks := audioChunks s; ws := ws s;
     sessionId := sessionId s; keywords := keywords s; recorders := recorders s;
     streams := streams s; sockets := sockets s; timers := timers s;
     pendingMic := pendingMic s; startDisabled := v; stopDisabled := stopDisabled s;
     speakerType := speakerType s; newKeywordInput := newKeywordInput s;
     newTalkingPointInput := newTalkingPointInput s;
     transcriptionDisplay := transcriptionDisplay s; alertDisplay := alertDisplay s;
     console := console s; page := page s |}.

Definition set_stopDisabled (v : bool) (s : State) : State :=
  {| mediaRecorder := mediaRecorder s; audioChunks := audioChunks s; ws := ws s;
     sessionId := sessionId s; keywords := keywords s; recorders := recorders s;
     streams := streams s; sockets := sockets s; timers := timers s;
     pendingMic := pendingMic s; startDisabled := startDisabled s; stopDisabled := v;
     speakerType := speakerType s; newKeywordInput := newKeywordInput s;
     newTalkingPointInput := newTalkingPointInput s;
     transcriptionDisplay := transcriptionDisplay s; alertDisplay := alertDisplay s;
     console := console s; page := page s |}.

Definition set_speakerType (v : string) (s : State) : State :=
  {| mediaRecorder := mediaRecorder s; audioChunks := audioChunks s; ws := ws s;
     sessionId := sessionId s; keywords := keywords s; recorders := recorders s;
     streams := streams s; sockets := sockets s; timers := timers s;
     pendingMic := pendingMic s; startDisabled := startDisabled s;
     stopDisabled := stopDisabled s; speakerType := v;
     newKeywordInput := newKeywordInput s;
     newTalkingPointInput := newTalkingPointInput s;
     transcriptionDisplay := transcriptionDisplay s; alertDisplay := alertDisplay s;
     console := console s; page := page s |}.

Definition set_newKeywordInput (v : string) (s : State) : State :=
  {| mediaRecorder := mediaRecorder s; audioChunks := audioChunks s; ws := ws s;
     sessionId := sessionId s; keywords := keywords s; recorders := recorders s;
     streams := streams s; sockets := sockets s; timers := timers s;
     pendingMic := pendingMic s; startDisabled := startDisabled s;
     stopDisabled := stopDisabled s; speakerType := speakerType s;
     newKeywordInput := v; newTalkingPointInput := newTalkingPointInput s;
     transcriptionDisplay := transcriptionDisplay s; alertDisplay := alertDisplay s;
     console := console s; page := page s |}.

Definition set_newTalkingPointInput (v : string) (s : State) : State :=
  {| mediaRecorder := mediaRecorder s; audioChunks := audioChunks s; ws := ws s;
     sessionId := sessionId s; keywords := keywords s; recorders := recorders s;
     streams := streams s; sockets := sockets s; timers := timers s;
     pendingMic := pendingMic s; startDisabled := startDisabled s;
     stopDisabled := stopDisabled s; speakerType := speakerType s;
     newKeywordInput := newKeywordInput s; newTalkingPointInput := v;
     transcriptionDisplay := transcriptionDisplay s; alertDisplay := alertDisplay s;
     console := console s; page := page s |}.

Definition set_transcriptionDisplay (v : list TranscriptNode) (s : State) : State :=
  {| mediaRecorder := mediaRecorder s; audioChunks := audioChunks s; ws := ws s;
     sessionId := sessionId s; keywords := keywords s; recorders := recorders s;
     streams := streams s; sockets := sockets s; timers := timers s;
     pendingMic := pendingMic s; startDisabled := startDisabled s;
     stopDisabled := stopDisabled s; speakerType := speakerType s;
     newKeywordInput := newKeywordInput s;
     newTalkingPointInput := newTalkingPointInput s; transcriptionDisplay := v;
     alertDisplay := alertDisplay s; console := console s; page := page s |}.

Definition set_alertDisplay (v : list AlertNode) (s : State) : State :=
  {| mediaRecorder := mediaRecorder s; audioChunks := audioChunks s; ws := ws s;
     sessionId := sessionId s; keywords := keywords s; recorders := recorders s;
     streams := streams s; sockets := sockets s; timers := timers s;
     pendingMic := pendingMic s; startDisabled := startDisabled s;
     stopDisabled := stopDisabled s; speakerType := speakerType s;
     newKeywordInput := newKeywordInput s;
     newTalkingPointInput := newTalkingPointInput s;
     transcriptionDisplay := transcriptionDisplay s; alertDisplay := v;
     console := console s; page := page s |}.

Definition set_console (v : list LogEntry) (s : State) : State :=
  {| mediaRecorder := mediaRecorder s; audioChunks := audioChunks s; ws := ws s;
     sessionId := sessionId s; keywords := keywords s; recorders := recorders s;
     streams := streams s; sockets := sockets s; timers := timers s;
     pendingMic := pendingMic s; startDisabled := startDisabled s;
     stopDisabled := stopDisabled s; speakerType := speakerType s;
     newKeywordInput := newKeywordInput s;
     newTalkingPointInput := newTalkingPointInput s;
     transcriptionDisplay := transcriptionDisplay s; alertDisplay := alertDisplay s;
     console := v; page := page s |}.

(** *** Helpers of the handlers *)

Definition console_log (m : string) (s : State) : State :=
  set_console (console s ++ [Log m]) s.

Definition console_warn (m : string) (s : State) : State :=
  set_console (console s ++ [Warn m]) s.

Definition console_error (m : string) (s : State) : State :=
  set_console (console s ++ [Error m]) s.

(** The address built by connectWebSocket from the page's scheme and host and
    the current value of [sessionId]. *)
Definition wsUrl (s : State) : string :=
  (if page_https (page s) then "wss:" else "ws:") +:+ "//" +:+ page_host (page s)
    +:+ "/ws/audio/" +:+ sessionId s +:+ "/".

(** The socket the variable [ws] refers to. *)
Definition current_socket (s : State) : option WebSocket :=
  match ws s with
  | Some k => sockets s !! k
  | None => None
  end.

(** [ws && ws.readyState === WebSocket.OPEN] *)
Definition ws_is_open (s : State) : bool :=
  match current_socket s with
  | Some w => ReadyState_eqb (readyState w) OPEN
  | None => false
  end.

(** [ws.send(f)] on the socket [ws] refers to.  The method throws while the
    socket is still connecting ([None]); it transmits on an open socket and
    discards the data on a closing or closed one. *)
Definition ws_send (f : Frame) (s : State) : option State :=
  match ws s with
  | None => None
  | Some k =>
      match sockets s !! k with
      | None => None
      | Some w =>
          match readyState w with
          | CONNECTING => None
          | OPEN => Some (set_sockets (<[k := with_frame f w]> (sockets s)) s)
          | CLOSING | CLOSED => Some s
          end
      end
  end.

(** [ws.close()]: a connecting or open socket starts closing, a closing or
    closed one is left as it is. *)
Definition close_socket (w : WebSocket) : WebSocket :=
  match readyState w with
  | CONNECTING | OPEN => with_readyState CLOSING w
  | CLOSING | CLOSED => w
  end.

Definition ws_close (s : State) : State :=
  match ws s with
  | Some k => set_sockets (alter close_socket k (sockets s)) s
  | None => s
  end.

(** *** connectWebSocket and the four socket handlers

    The handlers are installed on the socket created by the call, but their
    bodies name the variable [ws]: they act on whichever socket the variable
    refers to when they run. *)
Definition connectWebSocket (s : State) : State :=
  let s := console_log "Attempting to connect WebSocket to:" s in
  let k := length (sockets s) in
  let w := {| ws_url := wsUrl s; readyState := CONNECTING; ws_sent := [] |} in
  set_ws (Some k) (set_sockets (sockets s ++ [w]) s).

Definition ws_onopen (s : State) : State :=
  let s := console_log "WebSocket connected successfully" s in
  match ws_send (SetSpeakerType (speakerType s)) s with
  | Some s' => s'
  | None => console_error "Uncaught exception in ws.onopen" s
  end.

Definition is_placeholder (n : TranscriptNode) : bool :=
  match n with
  | TPlaceholder => true
  | TLine _ _ _ => false
  end.

(** The markup assigned to [p.innerHTML] for a line. *)
Definition line_html (speaker html : string) : string :=
  "<strong>" +:+ speaker +:+ ":</strong> " +:+ html.

(** [querySelector('p.text-gray-500')] finds the node or one inside it: the
    placeholder is such a paragraph; a line holds one only if its markup,
    into which the speaker and the text are spliced as they come, has the
    start of a paragraph tag, and then the parser decides. *)
Definition selects_placeholder (e : Engine) (n : TranscriptNode) : bool :=
  match n with
  | TPlaceholder => true
  | TLine _ speaker html =>
      occurs "<p" (line_html speaker html)
      && has_grey_paragraph e (line_html speaker html)
  end.

(** displayTranscription: the area is emptied when the selector finds a
    grey paragraph in it; then the line is built, and a SyntaxError thrown
    by highlightKeywordsInText leaves the function, and ws.onmessage,
    before the line is appended. *)
Definition displayTranscription (text speaker : string) (s : State) : State :=
  let e := page_engine (page s) in
  let shown :=
    if existsb (selects_placeholder e) (transcriptionDisplay s) then []
    else transcriptionDisplay s in
  let s := set_transcriptionDisplay shown s in
  match highlightKeywordsInText_in (new_RegExp e) (keywords s) text with
  | Some html =>
      let line := TLine (String.eqb speaker "prospect") speaker html in
      console_log "Displayed transcription:" (set_transcriptionDisplay (shown ++ [line]) s)
  | None => console_error "Uncaught SyntaxError in ws.onmessage" s
  end.

(** The talking point paragraph is rendered for a truthy value only. *)
Definition truthy (o : option string) : option string :=
  match o with
  | Some EmptyString => None
  | _ => o
  end.

Definition displayAlert (keyword : string) (talkingPoint : option string)
    (fullText speaker : string) (s : State) : State :=
  let box := AlertBox keyword (truthy talkingPoint) fullText speaker in
  console_log "Displayed alert for keyword:" (set_alertDisplay (box :: alertDisplay s) s).

Definition ws_onmessage (m : Inbound) (s : State) : State :=
  match m with
  | Transcription text speaker => displayTranscription text speaker s
  | Alert keyword tp fullText speaker => displayAlert keyword tp fullText speaker s
  | SelfTestResponse => console_log "Consumer self-test successful! Message:" s
  | OtherType => s
  end.

(** The delay handed to setTimeout in ws.onclose, in milliseconds. *)
Definition reconnect_delay : Z := 3000.

Definition ws_onclose (wasClean : bool) (s : State) : State :=
  let s := console_log "WebSocket disconnected" s in
  if negb wasClean
  then
    let s := console_log "Attempting to reconnect WebSocket..." s in
    set_timers (timers s ++ [reconnect_delay]) s
  else s.

Definition ws_onerror (s : State) : State :=
  ws_close (console_error "WebSocket error:" s).

(** *** The recording controls *)

(** The catch block of the start handler. *)
Definition startRecording_catch (s : State) : State :=
  let s := console_error "Error accessing microphone:" s in
  let s := console_error "Microphone Access Error: Could not start recording. Please ensure microphone access is granted." s in
  set_stopDisabled true (set_startDisabled false s).

(** The start handler up to its await.  [sid] is the value returned by
    generateSessionId(); [mediaDevices] tells whether
    [navigator.mediaDevices.getUserMedia] can be called at all: where it
    cannot, evaluating the call throws inside the try block and the catch
    block runs at once. *)
Definition startRecording_click (sid : string) (mediaDevices : bool) (s : State) : State :=
  let s := set_sessionId sid s in
  let s := connectWebSocket s in
  let s := console_log "Requesting microphone access..." s in
  if mediaDevices then set_pendingMic (S (pendingMic s)) s else startRecording_catch s.

(** The start handler resumed with a stream.  [opusSupported] is the answer
    of [MediaRecorder.isTypeSupported('audio/webm;codecs=opus')]. *)
Definition startRecording_granted (opusSupported : bool) (s : State) : State :=
  let s := set_pendingMic (pred (pendingMic s)) s in
  let s := console_log "Microphone access granted. Stream:" s in
  let stream := length (streams s) in
  let s := set_streams (streams s ++ [true]) s in
  let s :=
    if opusSupported then s
    else console_warn "audio/webm;codecs=opus is not supported, trying default." s in
  let r := length (recorders s) in
  let rec := {| rec_state := inactive; rec_stream := stream; rec_opus := opusSupported |} in
  let s := set_mediaRecorder (Some r) (set_recorders (recorders s ++ [rec]) s) in
  let s := console_log "MediaRecorder created. State:" s in
  let s := set_recorders (alter (with_rec_state recording) r (recorders s)) s in
  let s := console_log "MediaRecorder started. Current state:" s in
  let s := set_stopDisabled false (set_startDisabled true s) in
  let s := console_log "Recording started..." s in
  set_alertDisplay [APlaceholder] (set_transcriptionDisplay [TPlaceholder] s).

(** The start handler resumed with a rejection. *)
Definition startRecording_denied (s : State) : State :=
  startRecording_catch (set_pendingMic (pred (pendingMic s)) s).

(** The recorder the variable [mediaRecorder] refers to. *)
Definition current_recorder (s : State) : option MediaRecorder :=
  match mediaRecorder s with
  | Some r => recorders s !! r
  | None => None
  end.

(** [mediaRecorder && mediaRecorder.state === 'recording'] *)
Definition is_recording (s : State) : bool :=
  match current_recorder s with
  | Some m => match rec_state m with recording => true | _ => false end
  | None => false
  end.

(** [mediaRecorder.stop()] *)
Definition recorder_stop (s : State) : State :=
  match mediaRecorder s with
  | Some r => set_recorders (alter (with_rec_state inactive) r (recorders s)) s
  | None => s
  end.

Definition stopRecording_click (s : State) : State :=
  if is_recording s
  then
    let s := console_log "Stopping MediaRecorder..." s in
    let s := recorder_stop s in
    let s :=
      match ws s with
      | Some _ => ws_close (console_log "Closing WebSocket..." s)
      | None => s
      end in
    let s := set_stopDisabled true (set_startDisabled false s) in
    console_log "Recording stopped." s
  else console_log "MediaRecorder not in recording state, cannot stop." s.

(** The change handler of the speaker type selector; the selector holds its
    new value when the handler runs. *)
Definition speakerType_change (s : State) : State :=
  if ws_is_open s
  then
    match ws_send (SetSpeakerType (speakerType s)) s with
    | Some s' => console_log "Sent speaker type update:" s'
    | None => s
    end
  else s.

(** *** The recorder's handlers *)

Definition mediaRecorder_ondataavailable (data : Blob) (s : State) : State :=
  let s := console_log "ondataavailable event fired. Data size:" s in
  if (0 <? length data)%nat
  then
    let s := set_audioChunks (audioChunks s ++ [data]) s in
    if ws_is_open s
    then
      match ws_send (Binary data) s with
      | Some s' => console_log "Sent audio chunk to WebSocket. Chunk size:" s'
      | None => s
      end
    else console_warn "WebSocket not open, could not send audio chunk." s
  else console_log "ondataavailable event fired, but data size is 0." s.

(** onstop of recorder [r]: [stream] is the one captured by its closure. *)
Definition mediaRecorder_onstop (r : nat) (s : State) : State :=
  let s := console_log "Recording stopped" s in
  let s := set_audioChunks [] s in
  match recorders s !! r with
  | Some m => set_streams (<[rec_stream m := false]> (streams s)) s
  | None => s
  end.

Definition mediaRecorder_onerror (s : State) : State :=
  let s := console_error "MediaRecorder error:" s in
  console_error "Recording Error: MediaRecorder error:" s.

(** *** The keyword cache *)

(** Code units removed by [String.prototype.trim], within one byte. *)
Definition is_space (c : ascii) : bool :=
  existsb (Nat.eqb (nat_of_ascii c)) [9; 10; 11; 12; 13; 32; 160]%nat.

Fixpoint trim_start (w : string) : string :=
  match w with
  | EmptyString => EmptyString
  | String c w' => if is_space c then trim_start w' else w
  end.

Fixpoint trim_end (w : string) : string :=
  match w with
  | EmptyString => EmptyString
  | String c w' =>
      match trim_end w' with
      | EmptyString => if is_space c then EmptyString else String c EmptyString
      | t => String c t
      end
  end.

Definition trim (w : string) : string := trim_end (trim_start w).

(** The add handler up to its await: the body it posts, or nothing when the
    trimmed word is empty.  It changes no variable. *)
Definition addKeyword_request (s : State) : option Keyword :=
  let word := trim (newKeywordInput s) in
  let talkingPoint := trim (newTalkingPointInput s) in
  match word with
  | EmptyString => None
  | _ => Some {| kw_id := 0; kw_word := word; kw_talking_point := talkingPoint;
                 kw_is_active := true |}
  end.

(** The add handler resumed with the response. *)
Definition addKeyword_response (r : Response Keyword) (s : State) : State :=
  match r with
  | RespOk newKw =>
      let s := set_keywords (keywords s ++ [newKw]) s in
      let s := set_newTalkingPointInput EmptyString (set_newKeywordInput EmptyString s) in
      console_log "Keyword added:" s
  | RespNotOk => console_error "Failed to add keyword:" s
  | RespRejected => console_error "Network error adding keyword:" s
  end.

(** The onclick of a delete button resumed with the response; [keywordId] is
    [parseInt] of the button's data-id. *)
Definition deleteKeyword_response (keywordId : Z) (r : Response unit) (s : State) : State :=
  match r with
  | RespOk _ =>
      let s := set_keywords (filter (fun kw => kw_id kw ≠ keywordId) (keywords s)) s in
      console_log "Keyword deleted:" s
  | RespNotOk => console_error "Failed to delete keyword:" s
  | RespRejected => console_error "Network error deleting keyword:" s
  end.

(** loadKeywords resumed with the response. *)
Definition loadKeywords_response (r : Response (list Keyword)) (s : State) : State :=
  match r with
  | RespOk kws => console_log "Keywords loaded:" (set_keywords kws s)
  | RespNotOk => console_error "Failed to load keywords:" s
  | RespRejected => console_error "Network error loading keywords:" s
  end.

(** *** File upload

    The change handler of the file input up to its await only logs (with no
    file chosen it returns at once); its three continuations replace the
    content of [alertDisplay] by one paragraph. *)
Definition upload_chosen (s : State) : State :=
  console_log "Uploading audio file:" s.

Definition upload_ok (session_id : string) (s : State) : State :=
  let s := console_log "Audio file uploaded successfully:" s in
  set_alertDisplay
    [UploadNote true ("Audio file uploaded. Processing started for session: " +:+ session_id)] s.

Definition upload_not_ok (error : string) (s : State) : State :=
  let s := console_error "Audio file upload failed:" s in
  set_alertDisplay [UploadNote false ("Error uploading audio: " +:+ error)] s.

Definition upload_rejected (s : State) : State :=
  let s := console_error "Network error during audio upload:" s in
  set_alertDisplay [UploadNote false "Network error during upload."] s.

(** The animationend listener of an alert box removes the box; the other
    children of [alertDisplay] have no such listener. *)
Definition alert_animationend (i : nat) (s : State) : State :=
  match alertDisplay s !! i with
  | Some (AlertBox _ _ _ _) => set_alertDisplay (delete i (alertDisplay s)) s
  | _ => s
  end.

(** *** Events and the step function *)

(** What the event loop can deliver.  The browser's own part of an event (a
    socket's readyState changing before its handler runs, the selector taking
    its new value) is written out in [step]. *)
Inductive Event :=
| StartClick (sid : string) (mediaDevices : bool)
| MicGranted (opusSupported : bool)
| MicDenied
| StopClick
| SpeakerTypeChange (value : string)
| WsOpen (k : nat)
| WsMessage (k : nat) (m : Inbound)
| WsClose (k : nat) (wasClean : bool)
| WsError (k : nat)
| TimerFire
| DataAvailable (r : nat) (data : Blob)
| RecorderStop (r : nat)
| RecorderError (r : nat)
| AlertAnimationEnd (i : nat)
| KeywordInput (value : string)
| TalkingPointInput (value : string)
| KeywordsLoaded (r : Response (list Keyword))
| AddKeywordResponse (r : Response Keyword)
| DeleteKeywordResponse (keywordId : Z) (r : Response unit)
| UploadChosen
| UploadOk (session_id : string)
| UploadNotOk (error : string)
| UploadRejected.

Definition set_readyState (k : nat) (r : ReadyState) (s : State) : State :=
  set_sockets (alter (with_readyState r) k (sockets s)) s.

Definition step (s : State) (e : Event) : State :=
  match e with
  | StartClick sid mediaDevices => startRecording_click sid mediaDevices s
  | MicGranted opusSupported => startRecording_granted opusSupported s
  | MicDenied => startRecording_denied s
  | StopClick => stopRecording_click s
  | SpeakerTypeChange v => speakerType_change (set_speakerType v s)
  | WsOpen k => ws_onopen (set_readyState k OPEN s)
  | WsMessage _ m => ws_onmessage m s
  | WsClose k wasClean => ws_onclose wasClean (set_readyState k CLOSED s)
  | WsError _ => ws_onerror s
  | TimerFire =>
      match timers s with
      | _ :: rest => connectWebSocket (set_timers rest s)
      | [] => s
      end
  | DataAvailable _ data => mediaRecorder_ondataavailable data s
  | RecorderStop r => mediaRecorder_onstop r s
  | RecorderError _ => mediaRecorder_onerror s
  | AlertAnimationEnd i => alert_animationend i s
  | KeywordInput v => set_newKeywordInput v s
  | TalkingPointInput v => set_newTalkingPointInput v s
  | KeywordsLoaded r => loadKeywords_response r s
  | AddKeywordResponse r => addKeyword_response r s
  | DeleteKeywordResponse keywordId r => deleteKeyword_response keywordId r s
  | UploadChosen => upload_chosen s
  | UploadOk session_id => upload_ok session_id s
  | UploadNotOk error => upload_not_ok error s
  | UploadRejected => upload_rejected s
  end.

(** A run of the event loop. *)
Definition run (s : State) (es : list Event) : State := fold_left step es s.

Definition socket_state (s : State) (k : nat) : option ReadyState :=
  readyState <$> sockets s !! k.

Definition recorder_state (s : State) (r : nat) : option RecordingState :=
  rec_state <$> recorders s !! r.

(** Whether the browser can deliver the event in the state: a disabled button
    is not clicked, a continuation needs its suspended handler, a socket event
    fits the socket's readyState, a timer fires only while one is pending, a
    recorder event needs the recorder. *)
Definition dispatchable (s : State) (e : Event) : bool :=
  match e with
  | StartClick _ _ => negb (startDisabled s)
  | StopClick => negb (stopDisabled s)
  | MicGranted _ | MicDenied => (0 <? pendingMic s)%nat
  | WsOpen k =>
      match socket_state s k with Some CONNECTING => true | _ => false end
  | WsMessage k _ =>
      match socket_state s k with Some OPEN | Some CLOSING => true | _ => false end
  | WsClose k _ | WsError k =>
      match socket_state s k with Some CLOSED | None => false | _ => true end
  | TimerFire => match timers s with [] => false | _ => true end
  | DataAvailable r _ | RecorderError r =>
      match recorder_state s r with Some _ => true | None => false end
  | RecorderStop r =>
      match recorder_state s r with Some inactive => true | _ => false end
  | AlertAnimationEnd i =>
      match alertDisplay s !! i with Some (AlertBox _ _ _ _) => true | _ => false end
  | _ => true
  end.

Fixpoint feasible (s : State) (es : list Event) : bool :=
  match es with
  | [] => true
  | e :: es' => dispatchable s e && feasible (step s e) es'
  end.

(** The state when the DOMContentLoaded callback has run: [sid] is the value
    of the first generateSessionId() call. *)
Definition initial (p : Page) (sid : string) : State :=
  {| mediaRecorder := None; audioChunks := []; ws := None; sessionId := sid;
     keywords := []; recorders := []; streams := []; sockets := []; timers := [];
     pendingMic := 0; startDisabled := page_startDisabled p;
     stopDisabled := page_stopDisabled p; speakerType := page_speakerType p;
     newKeywordInput := EmptyString; newTalkingPointInput := EmptyString;
     transcriptionDisplay := page_transcription p; alertDisplay := page_alerts p;
     console := []; page := p |}.

(** The session is streaming: the current recorder records and the current
    socket is open. *)
Definition streaming (s : State) : bool := is_recording s && ws_is_open s.

(** *** Vocabulary for the statements about the session *)

(** The engine of the example runs, an arbitrary one that agrees with the
    browser where the examples consult it: they put one word outside the plain
    fragment to RegExp, c++, which the browser rejects, and they deliver no
    line with the start of a paragraph tag. *)
Definition example_engine : Engine :=
  {| new_RegExp := fun _ => SyntaxError; has_grey_paragraph := fun _ => true |}.

(** A page served over http from a local host, with the controls as a page
    that has not started recording shows them. *)
Definition example_page : Page :=
  {| page_https := false; page_host := "localhost:8000"; page_speakerType := "rep";
     page_startDisabled := false; page_stopDisabled := true;
     page_transcription := [TPlaceholder]; page_alerts := [APlaceholder];
     page_engine := example_engine |}.

(** The script after loading in [example_page]. *)
Definition loaded : State := initial example_page "session_0".

(** Modelled from the spec: the enumeration SpeakerType, of which the spec
    names the values rep and prospect; the options of the selector are in
    the markup, which is not among the sources. *)
Definition knownSpeakerTypes : list string := ["rep"; "prospect"].

Definition is_known_speaker_type (v : string) : bool :=
  existsb (String.eqb v) knownSpeakerTypes.

(** A keyword request that did not succeed. *)
Definition failed {A : Type} (r : Response A) : bool :=
  match r with
  | RespOk _ => false
  | RespNotOk | RespRejected => true
  end.

(** The event resumes a keyword request with a successful response. *)
Definition is_ack (e : Event) : bool :=
  match e with
  | KeywordsLoaded (RespOk _)
  | AddKeywordResponse (RespOk _)
  | DeleteKeywordResponse _ (RespOk _) => true
  | _ => false
  end.

Definition is_start (e : Event) : bool :=
  match e with
  | StartClick _ _ => true
  | _ => false
  end.

Definition is_data (e : Event) : bool :=
  match e with
  | DataAvailable _ _ => true
  | _ => false
  end.

Definition is_timer (e : Event) : bool :=
  match e with
  | TimerFire => true
  | _ => false
  end.

Definition is_abnormal_close (e : Event) : bool :=
  match e with
  | WsClose _ false => true
  | _ => false
  end.

(** The audio chunks among the frames of a socket, oldest first. *)
Fixpoint binaries (fs : list Frame) : list Blob :=
  match fs with
  | [] => []
  | Binary d :: fs' => d :: binaries fs'
  | SetSpeakerType _ :: fs' => binaries fs'
  end.

(** The audio chunks sent on the [k]-th socket of a heap so far; none on a
    socket that does not exist. *)
Definition binaries_at (l : list WebSocket) (k : nat) : list Blob :=
  match l !! k with
  | Some w => binaries (ws_sent w)
  | None => []
  end.

Definition binaries_sent (s : State) (k : nat) : list Blob :=
  binaries_at (sockets s) k.

(** The frames sent on socket [k] so far. *)
Definition frames_sent (s : State) (k : nat) : list Frame :=
  match sockets s !! k with
  | Some w => ws_sent w
  | None => []
  end.

(** *** Vocabulary for further statements about the session *)

(** The index of the newest object of a heap. *)
Definition newest {A : Type} (l : list A) : option nat :=
  match l with
  | [] => None
  | _ :: _ => Some (pred (length l))
  end.

(** The address of socket [k]. *)
Definition socket_url (s : State) (k : nat) : option string :=
  ws_url <$> sockets s !! k.

(** A frame that carries audio. *)
Definition is_binary (f : Frame) : bool :=
  match f with
  | Binary _ => true
  | SetSpeakerType _ => false
  end.

(** The first frame of a socket, if it has sent one, is not audio. *)
Definition announced_first (fs : list Frame) : bool :=
  match fs with
  | [] => true
  | f :: _ => negb (is_binary f)
  end.

(** A chunk that ondataavailable does not discard. *)
Definition has_data (d : Blob) : bool := (0 <? length d)%nat.

(** The transcription area holds the placeholder alone or lines only. *)
Definition tidy (l : list TranscriptNode) : bool :=
  match l with
  | [TPlaceholder] => true
  | _ => negb (existsb is_placeholder l)
  end.

(** The line displayTranscription builds for a speaker and a highlighted
    text. *)
Definition transcription_line (speaker html : string) : TranscriptNode :=
  TLine (String.eqb speaker "prospect") speaker html.

(** The line a message is shown as when the cached words are plain. *)
Definition shown_line (kws : list Keyword) (m : string * string) : option TranscriptNode :=
  transcription_line m.2 <$> highlightKeywordsInText kws m.1.

(** The selector finds nothing in the line a message will be shown as. *)
Definition shows_no_grey (e : Engine) (kws : list Keyword) (m : string * string) : bool :=
  match highlightKeywordsInText kws m.1 with
  | Some html => negb (selects_placeholder e (transcription_line m.2 html))
  | None => false
  end.

(** Inbound messages of one kind, delivered on socket [k] in list order. *)
Definition transcriptions (k : nat) (ms : list (string * string)) : list Event :=
  map (fun m => WsMessage k (Transcription m.1 m.2)) ms.

Definition alerts (k : nat) (ms : list (string * option string * string * string)) : list Event :=
  map (fun m => WsMessage k (Alert m.1.1.1 m.1.1.2 m.1.2 m.2)) ms.

(** The box displayAlert builds. *)
Definition alert_box (m : string * option string * string * string) : AlertNode :=
  AlertBox m.1.1.1 (truthy m.1.1.2) m.1.2 m.2.

(** Chunks of recorder [r], delivered in list order. *)
Definition chunks (r : nat) (ds : list Blob) : list Event :=
  map (DataAvailable r) ds.

(** Successful create responses, delivered in list order. *)
Definition creations (kws : list Keyword) : list Event :=
  map (fun kw => AddKeywordResponse (RespOk kw)) kws.

(** [n] rounds in which the oldest timer fires and the socket it creates,
    the [k]-th and its successors, fails at once. *)
Fixpoint retry_rounds (k n : nat) : list Event :=
  match n with
  | O => []
  | S n' => TimerFire :: WsError k :: WsClose k false :: retry_rounds (S k) n'
  end.

(** All characters of a string are removed by trim. *)
Fixpoint blank (w : string) : bool :=
  match w with
  | EmptyString => true
  | String c w' => is_space c && blank w'
  end.

Definition first_char (w : string) : option ascii :=
  match w with
  | EmptyString => None
  | String c _ => Some c
  end.

Fixpoint last_char (w : string) : option ascii :=
  match w with
  | EmptyString => None
  | String c EmptyString => Some c
  | String _ w' => last_char w'
  end.

(** The ids held in the cache, in cache order. *)
Definition cache_ids (s : State) : list Z := kw_id <$> keywords s.

(** The event creates no socket: it is neither a start click nor a firing
    timer. *)
Definition keeps_socket (e : Event) : bool := negb (is_start e) && negb (is_timer e).

(** The frames, the readyState and the address of the [k]-th socket of a
    heap. *)
Definition frames_at (l : list WebSocket) (k : nat) : list Frame :=
  match l !! k with
  | Some w => ws_sent w
  | None => []
  end.

Definition state_at (l : list WebSocket) (k : nat) : option ReadyState :=
  readyState <$> l !! k.

Definition url_at (l : list WebSocket) (k : nat) : option string :=
  ws_url <$> l !! k.

(** The [k]-th socket of a heap cannot send any more: it is closing or
    closed, or it does not exist. *)
Definition shut_at (l : list WebSocket) (k : nat) : bool :=
  match state_at l k with
  | Some CONNECTING | Some OPEN => false
  | Some CLOSING | Some CLOSED | None => true
  end.

(** The current socket, if there is one, cannot send any more. *)
Definition current_shut (s : State) : bool :=
  match ws s with
  | Some k => shut_at (sockets s) k
  | None => true
  end.

End Session.

Import Session.

(** Unfolds the handler of an event down to the record operations and
    splits on every test it makes. *)
Ltac handler_cases :=
  unfold step, startRecording_click, startRecording_granted, startRecording_denied,
    startRecording_catch, stopRecording_click, speakerType_change, ws_onopen,
    ws_onmessage, ws_onclose, ws_onerror, mediaRecorder_ondataavailable,
    mediaRecorder_onstop, mediaRecorder_onerror, loadKeywords_response,
    addKeyword_response, deleteKeyword_response, displayTranscription, displayAlert,
    upload_chosen, upload_ok, upload_not_ok, upload_rejected, alert_animationend,
    connectWebSocket, recorder_stop, ws_close, ws_send, set_readyState,
    console_log, console_warn, console_error;
  repeat (simpl; case_match); simplify_eq/=.

(** * Properties of the highlighter *)

Section StringFacts.

Lemma append_assoc (a b c : string) : (a +:+ b) +:+ c = a +:+ (b +:+ c).
Proof. induction a as [|x a IH]; simpl; [reflexivity | now rewrite IH]. Qed.

Lemma append_empty_r (a : string) : a +:+ EmptyString = a.
Proof. induction a as [|x a IH]; simpl; [reflexivity | now rewrite IH]. Qed.

Lemma canon_eqb_refl (c : ascii) : canon_eqb c c = true.
Proof. unfold canon_eqb. apply Ascii.eqb_refl. Qed.

(** A match is a prefix of the subject, as long as the pattern. *)
Lemma match_at_prefix (p s m : string) :
  match_at p s = Some m ->
  exists rest, s = m +:+ rest /\ String.length m = String.length p.
Proof.
  revert s m. induction p as [|c p IH]; intros s m H; simpl in H.
  - injection H as <-. exists s. split; reflexivity.
  - destruct s as [|d s]; [discriminate|].
    destruct (canon_eqb c d); [|discriminate].
    destruct (match_at p s) as [m'|] eqn:E; [|discriminate].
    injection H as <-. destruct (IH _ _ E) as (rest & -> & Hl).
    exists rest. simpl. now rewrite Hl.
Qed.

(** Matching looks at no more of the subject than the pattern is long. *)
Lemma match_at_app (p m rest m' : string) :
  match_at p m = Some m' -> match_at p (m +:+ rest) = Some m'.
Proof.
  revert m m'. induction p as [|c p IH]; intros m m' H; simpl in *; [assumption|].
  destruct m as [|d m]; [discriminate|]. simpl.
  destruct (canon_eqb c d); [|discriminate].
  destruct (match_at p m) as [x|] eqn:E; [|discriminate].
  now rewrite (IH _ _ E).
Qed.

Lemma match_at_self (p : string) : match_at p p = Some p.
Proof.
  induction p as [|c p IH]; simpl; [reflexivity|].
  now rewrite canon_eqb_refl, IH.
Qed.

(** Passing over the characters of a match resumes the scan behind it. *)
Lemma replace_from_skip (p a rest : string) :
  replace_from p (String.length a) (a +:+ rest) = replace_from p 0 rest.
Proof.
  induction a as [|x a IH]; simpl.
  - destruct rest; reflexivity.
  - exact IH.
Qed.

End StringFacts.

Section Highlighter.

Implicit Types p s m pre rest tail : string.

Lemma span_open_shape : span_open = String "<" ("span" +:+ open_attrs).
Proof. reflexivity. Qed.

(** Where the pattern occurs, the subject splits at the leftmost match. *)
Lemma occurs_split p s :
  occurs p s = true ->
  exists pre m rest,
    s = pre +:+ m +:+ rest /\ match_at p (m +:+ rest) = Some m /\
    clear_before p pre (m +:+ rest) = true.
Proof.
  induction s as [|c s IH]; simpl.
  - destruct (match_at p EmptyString) as [m|] eqn:E; [|discriminate].
    intros _. destruct (match_at_prefix _ _ _ E) as (rest & Hs & _).
    destruct m; [|discriminate]. simpl in Hs. subst rest.
    exists EmptyString, EmptyString, EmptyString. auto.
  - destruct (match_at p (String c s)) as [m|] eqn:E.
    + intros _. destruct (match_at_prefix _ _ _ E) as (rest & Hs & _).
      exists EmptyString, m, rest. simpl. rewrite <- Hs. auto.
    + intros H. destruct (IH H) as (pre & m & rest & -> & Hm & Hc).
      exists (String c pre), m, rest. simpl. simpl in E. rewrite E. auto.
Qed.

(** The scan copies the text in front of the leftmost match. *)
Lemma replace_all_clear p pre tail :
  clear_before p pre tail = true ->
  replace_all p (pre +:+ tail) = pre +:+ replace_all p tail.
Proof.
  unfold replace_all. induction pre as [|c pre IH]; simpl; [reflexivity|].
  destruct (match_at p (String c (pre +:+ tail))); [discriminate|].
  intros H. now rewrite (IH H).
Qed.

(** At a non-empty match the scan emits the wrapped match and resumes behind it. *)
Lemma replace_all_match p m rest :
  m <> EmptyString -> match_at p (m +:+ rest) = Some m ->
  replace_all p (m +:+ rest) = wrap m +:+ replace_all p rest.
Proof.
  unfold replace_all. destruct m as [|d m]; [congruence|]. intros _ H.
  simpl. simpl in H. rewrite H. simpl. now rewrite replace_from_skip.
Qed.

Lemma match_nonempty p s m :
  p <> EmptyString -> match_at p s = Some m -> m <> EmptyString.
Proof.
  intros Hp H. destruct (match_at_prefix _ _ _ H) as (_ & _ & Hl).
  destruct m; [|discriminate]. destruct p; [congruence | discriminate].
Qed.

(** One pass over a text in which the pattern occurs. *)
Lemma replace_all_first p s :
  p <> EmptyString -> occurs p s = true ->
  exists pre m rest,
    s = pre +:+ m +:+ rest /\ match_at p (m +:+ rest) = Some m /\
    replace_all p s = pre +:+ wrap m +:+ replace_all p rest.
Proof.
  intros Hp H. destruct (occurs_split _ _ H) as (pre & m & rest & -> & Hm & Hc).
  exists pre, m, rest. repeat split; [assumption|].
  rewrite (replace_all_clear _ _ _ Hc).
  now rewrite (replace_all_match _ _ _ (match_nonempty _ _ _ Hp Hm) Hm).
Qed.

(** A failed match stays failed when the text behind some prefix is replaced
    by one starting with a character the pattern does not contain. *)
Lemma match_at_cut p (c : ascii) u v v' :
  avoids c p = true -> match_at p (u +:+ v) = None ->
  match_at p (u +:+ String c v') = None.
Proof.
  revert u. induction p as [|x p IH]; intros u Ha H; simpl in *; [discriminate|].
  apply andb_true_iff in Ha as [Hx Ha].
  destruct u as [|d u]; simpl in *.
  - apply negb_true_iff in Hx. now rewrite Hx.
  - destruct (canon_eqb x d); [|reflexivity].
    destruct (match_at p (u +:+ v)) eqn:E; [discriminate|].
    now rewrite (IH _ Ha E).
Qed.

Lemma occurs_clear p (c : ascii) pre x y :
  avoids c p = true -> occurs p (pre +:+ x) = false ->
  clear_before p pre (String c y) = true.
Proof.
  intros Ha. induction pre as [|d pre IH]; simpl; [reflexivity|].
  destruct (match_at p (String d (pre +:+ x))) eqn:E; [discriminate|].
  intros H. change (String d (pre +:+ String c y)) with (String d pre +:+ String c y).
  rewrite (match_at_cut p c (String d pre) x y Ha E). auto.
Qed.

(** The pass for the word span over an opening tag. *)
Lemma replace_span_open tail :
  replace_all "span" (span_open +:+ tail)
  = "<" +:+ wrap "span" +:+ replace_all "span" (open_attrs +:+ tail).
Proof. rewrite span_open_shape. reflexivity. Qed.

End Highlighter.

Section HighlighterClaims.

(** C8. With an empty keyword array the forEach runs no callback, so
    highlightKeywordsInText returns its argument unchanged, for every text. *)
Theorem highlight_no_keywords_identity (text : string) :
  highlightKeywordsInText [] text = Some text.
Proof. reflexivity. Qed.

(** C6, as stated, fails.  With the keywords cat, category in that order the
    text category comes out with a single wrapper, around cat: the first pass
    splits the word, so the pattern of the second keyword matches nowhere in
    the text it is applied to. *)
Lemma cat_then_category_wraps_once :
  let out := wrap "cat" +:+ "egory" in
  highlightKeywordsInText [keyword_of 1 "cat"; keyword_of 2 "category"] "category"
    = Some out
  /\ count_open out = 1%nat
  /\ occurs "category" out = false.
Proof. vm_compute. repeat split. Qed.

(** C6, amended.  In the order cat, category only cat is wrapped.  The passes
    are still not exclusive: in the order category, cat the later pattern
    matches inside the wrapper of the earlier keyword and the result nests two
    wrappers. *)
Theorem cat_category_overlap :
  highlightKeywordsInText [keyword_of 1 "cat"; keyword_of 2 "category"] "category"
    = Some (wrap "cat" +:+ "egory")
  /\ highlightKeywordsInText [keyword_of 2 "category"; keyword_of 1 "cat"] "category"
    = Some (span_open +:+ wrap "cat" +:+ "egory" +:+ span_close)
  /\ count_open (span_open +:+ wrap "cat" +:+ "egory" +:+ span_close) = 2%nat.
Proof. vm_compute. repeat split. Qed.

(** C9. The passes do not tell the original text from markup an earlier pass
    inserted.  Let a first keyword be a plain non-empty word that occurs in
    the text, and let the second keyword be the word span, which does not
    occur in the text.  Then the result is the text in front of the first
    match, the bracket of the opening tag, and the tag name span inside a
    wrapper of its own: the second pass wrapped a piece of the marker. *)
Theorem later_keyword_wraps_inserted_markup (k1 k2 : Keyword) (text : string) :
  literal_word (kw_word k1) = true ->
  kw_word k1 <> EmptyString ->
  kw_word k2 = "span" ->
  occurs (kw_word k1) text = true ->
  occurs "span" text = false ->
  exists pre m rest post,
    text = pre +:+ m +:+ rest /\
    match_at (kw_word k1) (m +:+ rest) = Some m /\
    highlightKeywordsInText [k1; k2] text
      = Some (pre +:+ "<" +:+ wrap "span" +:+ post).
Proof.
  intros Hlit Hne Hk2 Hocc Hspan.
  destruct (replace_all_first _ _ Hne Hocc) as (pre & m & rest & Ht & Hm & Hr).
  exists pre, m, rest.
  exists (replace_all "span"
            (open_attrs +:+ m +:+ span_close +:+ replace_all (kw_word k1) rest)).
  repeat split; [assumption | assumption |].
  unfold highlightKeywordsInText. simpl. rewrite Hlit. simpl. rewrite Hk2. simpl.
  rewrite Hr.
  f_equal. unfold wrap at 1. rewrite !append_assoc.
  rewrite replace_all_clear.
  - now rewrite replace_span_open.
  - rewrite span_open_shape. simpl. rewrite Ht in Hspan.
    now apply (occurs_clear "span" "<" pre (m +:+ rest)).
Qed.

Lemma later_keyword_wraps_inserted_markup_witness :
  exists pre m rest post,
    "a Cat" = pre +:+ m +:+ rest /\
    match_at "cat" (m +:+ rest) = Some m /\
    highlightKeywordsInText [keyword_of 1 "cat"; keyword_of 2 "span"] "a Cat"
      = Some (pre +:+ "<" +:+ wrap "span" +:+ post).
Proof.
  apply (later_keyword_wraps_inserted_markup
           (keyword_of 1 "cat") (keyword_of 2 "span") "a Cat").
  - reflexivity.
  - discriminate.
  - reflexivity.
  - reflexivity.
  - reflexivity.
Defined.

(** The same run, evaluated: the wrapper of Cat has both of its tag names
    wrapped. *)
Example span_keyword_output :
  highlightKeywordsInText [keyword_of 1 "cat"; keyword_of 2 "span"] "a Cat"
  = Some ("a <" +:+ wrap "span" +:+ open_attrs +:+ "Cat</" +:+ wrap "span" +:+ ">").
Proof. reflexivity. Qed.

End HighlighterClaims.

(** * Properties of the session handlers *)

Section SessionFacts.

Implicit Types s : State.

Example trim_example : trim "  big deal " = "big deal".
Proof. reflexivity. Qed.

Example addKeyword_request_blank :
  addKeyword_request (set_newKeywordInput "   " loaded) = None.
Proof. reflexivity. Qed.

(** Only a successful keyword response assigns or mutates [keywords]. *)
Lemma keywords_frame s e : is_ack e = false -> keywords (step s e) = keywords s.
Proof. destruct e; intros H; handler_cases; try reflexivity; discriminate. Qed.

(** Only the start handler assigns [sessionId]; nothing assigns [page]. *)
Lemma sessionId_frame s e : is_start e = false -> sessionId (step s e) = sessionId s.
Proof. destruct e; intros H; handler_cases; try reflexivity; discriminate. Qed.

Lemma page_frame s e : page (step s e) = page s.
Proof. destruct e; handler_cases; reflexivity. Qed.

Lemma sessionId_run s es :
  forallb (fun e => negb (is_start e)) es = true ->
  sessionId (run s es) = sessionId s.
Proof.
  revert s. induction es as [|e es IH]; intros s H; [reflexivity|].
  simpl in H. apply andb_true_iff in H as [He Hes]. apply negb_true_iff in He.
  change (run s (e :: es)) with (run (step s e) es).
  rewrite (IH _ Hes). now apply sessionId_frame.
Qed.

Lemma page_run s es : page (run s es) = page s.
Proof.
  revert s. induction es as [|e es IH]; intros s; [reflexivity|].
  change (run s (e :: es)) with (run (step s e) es).
  rewrite IH. apply page_frame.
Qed.

(** The pending timers change in two ways only: an abnormal close appends
    one, a firing removes the oldest. *)
Lemma timers_frame s e :
  is_abnormal_close e = false -> is_timer e = false ->
  timers (step s e) = timers s.
Proof.
  destruct e; intros H1 H2; try discriminate; try (handler_cases; reflexivity).
  destruct wasClean; [handler_cases; reflexivity | discriminate].
Qed.

(** A send that the handlers guard by the open test does not throw. *)
Lemma ws_send_open s f :
  ws_is_open s = true ->
  exists k w, ws s = Some k /\ sockets s !! k = Some w /\ readyState w = OPEN /\
    ws_send f s = Some (set_sockets (<[k := with_frame f w]> (sockets s)) s).
Proof.
  unfold ws_is_open, current_socket, ws_send.
  destruct (ws s) as [k|]; [|discriminate].
  destruct (sockets s !! k) as [w|] eqn:Ew; [|discriminate].
  destruct (readyState w) eqn:E; simpl; try discriminate.
  intros _. exists k, w. rewrite Ew, E. repeat split; reflexivity.
Qed.

(** Three ways the handlers change the socket heap without adding an audio
    chunk to any socket. *)
Lemma binaries_at_alter (f : WebSocket -> WebSocket) l k j :
  (forall w, binaries (ws_sent (f w)) = binaries (ws_sent w)) ->
  binaries_at (alter f k l) j = binaries_at l j.
Proof.
  intros Hf. unfold binaries_at. rewrite list_lookup_alter.
  case_decide; [subst|reflexivity]. destruct (l !! j); simpl; [apply Hf | reflexivity].
Qed.

Lemma binaries_at_insert l k j (w w' : WebSocket) :
  l !! k = Some w -> binaries (ws_sent w') = binaries (ws_sent w) ->
  binaries_at (<[k := w']> l) j = binaries_at l j.
Proof.
  intros Hk Hb. unfold binaries_at. destruct (decide (k = j)) as [->|Hne].
  - rewrite list_lookup_insert_eq by (eapply lookup_lt_Some; eassumption).
    now rewrite Hk.
  - now rewrite list_lookup_insert_ne.
Qed.

Lemma binaries_at_snoc l j (w : WebSocket) :
  ws_sent w = [] -> binaries_at (l ++ [w]) j = binaries_at l j.
Proof.
  intros Hw. unfold binaries_at.
  destruct (decide (j < length l)) as [Hlt|Hge].
  - now rewrite lookup_app_l.
  - rewrite lookup_app_r by lia. rewrite (lookup_ge_None_2 l) by lia.
    destruct (j - length l) as [|n]; simpl; [now rewrite Hw | reflexivity].
Qed.

Lemma binaries_snoc_text fs (v : string) :
  binaries (fs ++ [SetSpeakerType v]) = binaries fs.
Proof.
  induction fs as [|f fs IH]; simpl; [reflexivity|].
  destruct f; simpl; now rewrite IH.
Qed.

Lemma binaries_snoc_binary fs (d : Blob) :
  binaries (fs ++ [Binary d]) = binaries fs ++ [d].
Proof.
  induction fs as [|f fs IH]; simpl; [reflexivity|].
  destruct f; simpl; now rewrite IH.
Qed.

Lemma close_socket_sent (w : WebSocket) : ws_sent (close_socket w) = ws_sent w.
Proof. unfold close_socket. now destruct (readyState w). Qed.

(** No handler but ondataavailable hands an audio chunk to a socket. *)
Lemma binaries_frame s e j :
  is_data e = false -> binaries_sent (step s e) j = binaries_sent s j.
Proof.
  destruct e; intros H; try discriminate; unfold binaries_sent; handler_cases;
    try reflexivity.
  all: repeat match goal with
    | |- context [binaries_at (_ ++ [_]) _] =>
        rewrite binaries_at_snoc by reflexivity
    | Hw : ?l !! ?n = Some ?w
      |- context [binaries_at (<[?n := with_frame (SetSpeakerType ?v) ?w]> ?l) _] =>
        rewrite (binaries_at_insert l n _ w _ Hw) by (simpl; apply binaries_snoc_text)
    | |- context [binaries_at (alter (with_readyState _) _ _) _] =>
        rewrite binaries_at_alter by reflexivity
    | |- context [binaries_at (alter close_socket _ _) _] =>
        rewrite binaries_at_alter by (intros; now rewrite close_socket_sent)
    end; reflexivity.
Qed.

(** The buffer [audioChunks] is written by two handlers only: ondataavailable
    appends to it, onstop empties it. *)
Lemma audioChunks_frame s e :
  is_data e = false ->
  audioChunks (step s e) = audioChunks s \/ audioChunks (step s e) = [].
Proof.
  destruct e; intros H; try discriminate; handler_cases; auto.
Qed.

(** The address depends on the session id and the page only. *)
Lemma wsUrl_frame s s' :
  sessionId s' = sessionId s -> page s' = page s -> wsUrl s' = wsUrl s.
Proof. unfold wsUrl. now intros -> ->. Qed.

(** A firing timer runs connectWebSocket: the oldest pending timer is gone,
    a new connecting socket for the current session id is created and [ws]
    refers to it. *)
Lemma timer_fire_connects s d rest :
  timers s = d :: rest ->
  timers (step s TimerFire) = rest
  /\ ws (step s TimerFire) = Some (length (sockets s))
  /\ current_socket (step s TimerFire)
     = Some {| ws_url := wsUrl s; readyState := CONNECTING; ws_sent := [] |}.
Proof.
  intros H. unfold step. rewrite H. unfold current_socket. simpl.
  repeat split. rewrite lookup_app_r by lia. now rewrite Nat.sub_diag.
Qed.

(** Without an abnormal close the pending timers can only fire. *)
Lemma timers_only_fire s es :
  forallb (fun e => negb (is_abnormal_close e)) es = true ->
  exists n, timers (run s es) = drop n (timers s).
Proof.
  revert s. induction es as [|e es IH]; intros s H.
  - exists 0. reflexivity.
  - simpl in H. apply andb_true_iff in H as [He Hes]. apply negb_true_iff in He.
    change (run s (e :: es)) with (run (step s e) es).
    destruct (IH (step s e) Hes) as (n & ->).
    destruct (is_timer e) eqn:Et.
    + destruct e; try discriminate. exists (S n). simpl.
      destruct (timers s) as [|d rest] eqn:E; [now rewrite E, !drop_nil | reflexivity].
    + exists n. now rewrite timers_frame.
Qed.

Lemma close_schedules s k (wasClean : bool) :
  timers (step s (WsClose k wasClean))
  = timers s ++ (if wasClean then [] else [reconnect_delay]).
Proof. destruct wasClean; simpl; [now rewrite app_nil_r | reflexivity]. Qed.

End SessionFacts.

Section SessionClaims.

Implicit Types s : State.

(** C10. A click on stop while the current recorder is not recording only
    logs one line: every variable and every browser object is left as it
    was, so the socket [ws] refers to, if there is one, keeps its readyState
    and is not closed. *)
Theorem stop_when_not_recording s :
  is_recording s = false ->
  step s StopClick
    = console_log "MediaRecorder not in recording state, cannot stop." s
  /\ ws (step s StopClick) = ws s
  /\ sockets (step s StopClick) = sockets s
  /\ current_socket (step s StopClick) = current_socket s.
Proof.
  intros H. unfold step, stopRecording_click. rewrite H.
  repeat split; reflexivity.
Qed.

Lemma stop_when_not_recording_witness :
  let s := run loaded [StartClick "session_a" true; MicDenied; WsOpen 0] in
  step s StopClick
    = console_log "MediaRecorder not in recording state, cannot stop." s
  /\ ws (step s StopClick) = ws s
  /\ sockets (step s StopClick) = sockets s
  /\ current_socket (step s StopClick) = current_socket s.
Proof.
  apply (stop_when_not_recording
           (run loaded [StartClick "session_a" true; MicDenied; WsOpen 0])).
  reflexivity.
Defined.

(** C1, as stated, fails.  The start handler opens the socket before it asks
    for the microphone, and its catch block does not close it: after a denied
    request the socket opens and carries the speaker type announcement. *)
Lemma denied_start_leaves_transport_open :
  feasible loaded [StartClick "session_a" true; MicDenied; WsOpen 0] = true
  /\ is_recording (run loaded [StartClick "session_a" true; MicDenied; WsOpen 0]) = false
  /\ current_socket (run loaded [StartClick "session_a" true; MicDenied; WsOpen 0])
     = Some {| ws_url := "ws://localhost:8000/ws/audio/session_a/";
               readyState := OPEN;
               ws_sent := [SetSpeakerType "rep"] |}.
Proof. vm_compute. repeat split. Qed.

(** C1, amended.  A start attempt whose device request is rejected, or cannot
    be made at all, ends in the same state either way: the failure is logged,
    the controls are reset (start enabled, stop disabled), no recorder is
    created and no timer is scheduled; the socket created at the beginning of
    the attempt for the new session id stays the current socket, connecting,
    and when it opens the speaker type announcement is sent on it. *)
Theorem start_without_device s (sid : string) :
  let s1 := run s [StartClick sid true; MicDenied] in
  let k := length (sockets s) in
  let url := wsUrl (set_sessionId sid s) in
  run s [StartClick sid false] = s1
  /\ sessionId s1 = sid
  /\ ws s1 = Some k
  /\ sockets s1
     = sockets s ++ [{| ws_url := url; readyState := CONNECTING; ws_sent := [] |}]
  /\ mediaRecorder s1 = mediaRecorder s
  /\ recorders s1 = recorders s
  /\ timers s1 = timers s
  /\ startDisabled s1 = false
  /\ stopDisabled s1 = true
  /\ console s1
     = console s ++
       [Log "Attempting to connect WebSocket to:";
        Log "Requesting microphone access...";
        Error "Error accessing microphone:";
        Error "Microphone Access Error: Could not start recording. Please ensure microphone access is granted."]
  /\ current_socket (step s1 (WsOpen k))
     = Some {| ws_url := url; readyState := OPEN;
               ws_sent := [SetSpeakerType (speakerType s)] |}.
Proof.
  cbv zeta. repeat split; try reflexivity.
  - simpl. now rewrite <- !app_assoc.
  - unfold run, fold_left, step, ws_onopen, set_readyState, ws_send, current_socket.
    simpl.
    rewrite (alter_app_r_alt _ (sockets s) _ (length (sockets s))) by lia.
    rewrite Nat.sub_diag. simpl.
    rewrite (lookup_app_r (sockets s)) by lia. rewrite Nat.sub_diag. simpl.
    rewrite (insert_app_r_alt (sockets s)) by lia. rewrite Nat.sub_diag. simpl.
    rewrite (lookup_app_r (sockets s)) by lia. now rewrite Nat.sub_diag.
Qed.

(** C7. A keyword request that fails, by a response that is not ok or by a
    rejected fetch, leaves the cache as it was, for create and for delete; and
    no event other than a successful keyword response changes the cache. *)
Theorem failed_keyword_request_keeps_cache s :
  (forall r, failed r = true ->
     keywords (step s (AddKeywordResponse r)) = keywords s)
  /\ (forall keywordId r, failed r = true ->
     keywords (step s (DeleteKeywordResponse keywordId r)) = keywords s)
  /\ (forall e, is_ack e = false -> keywords (step s e) = keywords s).
Proof.
  repeat split.
  - intros r H. apply keywords_frame. now destruct r.
  - intros i r H. apply keywords_frame. now destruct r.
  - intros e. apply keywords_frame.
Qed.

Lemma failed_keyword_request_keeps_cache_witness :
  keywords
    (step (run loaded [KeywordsLoaded (RespOk [keyword_of 1 "cat"])])
          (AddKeywordResponse RespNotOk))
  = [keyword_of 1 "cat"]
  /\ keywords
       (step (run loaded [KeywordsLoaded (RespOk [keyword_of 1 "cat"])])
             (DeleteKeywordResponse 1 RespRejected))
     = [keyword_of 1 "cat"].
Proof.
  destruct (failed_keyword_request_keeps_cache
              (run loaded [KeywordsLoaded (RespOk [keyword_of 1 "cat"])]))
    as (Ha & Hd & _).
  split; [apply (Ha RespNotOk) | apply (Hd 1%Z RespRejected)]; reflexivity.
Defined.

(** C5, as stated, fails.  The change handler does not look at the value: on
    an open socket a value outside the known set is announced like any other,
    and it replaces the value that is announced from then on. *)
Lemma unknown_speaker_type_is_sent :
  is_known_speaker_type "narrator" = false
  /\ feasible loaded
       [StartClick "session_a" true; MicGranted true; WsOpen 0;
        SpeakerTypeChange "narrator"] = true
  /\ frames_sent
       (run loaded
          [StartClick "session_a" true; MicGranted true; WsOpen 0;
           SpeakerTypeChange "narrator"]) 0
     = [SetSpeakerType "rep"; SetSpeakerType "narrator"].
Proof. vm_compute. repeat split. Qed.

(** C5, amended.  The change handler validates nothing and fails for no
    value.  The selector's value is sent in a set_speaker_type message when
    the current socket is open; otherwise nothing is sent and only the
    selector's value changes. *)
Theorem speaker_type_change_unvalidated s (v : string) :
  (ws_is_open s = true ->
   exists k w, ws s = Some k /\ sockets s !! k = Some w /\
     step s (SpeakerTypeChange v)
     = console_log "Sent speaker type update:"
         (set_sockets (<[k := with_frame (SetSpeakerType v) w]> (sockets s))
            (set_speakerType v s)))
  /\ (ws_is_open s = false -> step s (SpeakerTypeChange v) = set_speakerType v s).
Proof.
  split; intros H.
  - destruct (ws_send_open (set_speakerType v s) (SetSpeakerType v) H)
      as (k & w & Hk & Hw & _ & Hs).
    exists k, w. repeat split; try assumption.
    unfold step, speakerType_change.
    change (ws_is_open (set_speakerType v s)) with (ws_is_open s).
    rewrite H. simpl speakerType. now rewrite Hs.
  - unfold step, speakerType_change.
    change (ws_is_open (set_speakerType v s)) with (ws_is_open s).
    now rewrite H.
Qed.

Lemma speaker_type_change_unvalidated_witness :
  step (run loaded [StartClick "session_a" true; MicGranted true])
       (SpeakerTypeChange "narrator")
  = set_speakerType "narrator"
      (run loaded [StartClick "session_a" true; MicGranted true]).
Proof.
  apply (speaker_type_change_unvalidated
           (run loaded [StartClick "session_a" true; MicGranted true]) "narrator").
  reflexivity.
Defined.

End SessionClaims.

Section TransportClaims.

Implicit Types s : State.

(** One whole session: start, the socket opens and announces the speaker
    type, a chunk is forwarded, a transcription arrives and is shown with the
    prospect styling, stop, the last chunk finds the socket closing, the
    socket closes cleanly and no timer is left. *)
Example one_session :
  let s :=
    run loaded
      [StartClick "session_a" true; MicGranted true; WsOpen 0;
       DataAvailable 0 [Byte.x52];
       WsMessage 0 (Transcription "hello world" "prospect");
       StopClick; DataAvailable 0 [Byte.x53]; RecorderStop 0; WsClose 0 true] in
  frames_sent s 0 = [SetSpeakerType "rep"; Binary [Byte.x52]]
  /\ transcriptionDisplay s = [TLine true "prospect" "hello world"]
  /\ socket_state s 0 = Some CLOSED
  /\ recorder_state s 0 = Some inactive
  /\ streams s = [false]
  /\ audioChunks s = []
  /\ timers s = []
  /\ startDisabled s = false /\ stopDisabled s = true.
Proof. vm_compute. repeat split. Qed.

(** C3, as stated, fails, in two ways.  A chunk that arrives while the socket
    is not open is dropped from the transport but it is stored, in the buffer
    audioChunks; and a chunk of size zero is not forwarded although the
    socket is open. *)
Lemma dropped_chunk_is_buffered :
  feasible loaded
    [StartClick "session_a" true; MicGranted true; DataAvailable 0 [Byte.x52]] = true
  /\ ws_is_open (run loaded [StartClick "session_a" true; MicGranted true]) = false
  /\ audioChunks
       (run loaded
          [StartClick "session_a" true; MicGranted true; DataAvailable 0 [Byte.x52]])
     = [[Byte.x52]]
  /\ ws_is_open (run loaded [StartClick "session_a" true; MicGranted true; WsOpen 0])
     = true
  /\ frames_sent
       (run loaded
          [StartClick "session_a" true; MicGranted true; WsOpen 0; DataAvailable 0 []])
       0
     = [SetSpeakerType "rep"].
Proof. vm_compute. repeat split. Qed.

(** C3, amended.  A chunk of size zero is neither stored nor sent.  A chunk
    of non-zero size is appended to the buffer audioChunks in every case; it
    is sent as one binary frame on the current socket when that socket is
    open, and otherwise it is not sent and a warning is logged.  The handler
    does not throw: its send is guarded by the open test.  Nothing is sent
    from the buffer later: no other handler adds an audio chunk to any
    socket, and the only other change to the buffer is that it is emptied. *)
Theorem chunk_forwarding s (r : nat) (data : Blob) :
  let s' := step s (DataAvailable r data) in
  (data = [] -> sockets s' = sockets s /\ audioChunks s' = audioChunks s)
  /\ (data <> [] -> ws_is_open s = true ->
      audioChunks s' = audioChunks s ++ [data] /\
      exists k w, ws s = Some k /\ sockets s !! k = Some w /\
        sockets s' = <[k := with_frame (Binary data) w]> (sockets s))
  /\ (data <> [] -> ws_is_open s = false ->
      audioChunks s' = audioChunks s ++ [data] /\
      sockets s' = sockets s /\
      console s'
      = console s ++
        [Log "ondataavailable event fired. Data size:";
         Warn "WebSocket not open, could not send audio chunk."])
  /\ (forall e j, is_data e = false -> binaries_sent (step s e) j = binaries_sent s j)
  /\ (forall e, is_data e = false ->
      audioChunks (step s e) = audioChunks s \/ audioChunks (step s e) = []).
Proof.
  cbv zeta. unfold step, mediaRecorder_ondataavailable.
  split; [intros ->; split; reflexivity|].
  split; [|split; [|split]].
  - intros Hd Ho. destruct data as [|b data]; [congruence|]. simpl.
    set (s1 := set_audioChunks _ _).
    assert (Ho1 : ws_is_open s1 = true) by exact Ho. rewrite Ho1.
    destruct (ws_send_open s1 (Binary (b :: data)) Ho1)
      as (k & w & Hk & Hw & _ & Hs).
    rewrite Hs. split; [reflexivity|]. exists k, w. repeat split; assumption.
  - intros Hd Ho. destruct data as [|b data]; [congruence|]. simpl.
    set (s1 := set_audioChunks _ _).
    assert (Ho1 : ws_is_open s1 = false) by exact Ho. rewrite Ho1.
    repeat split; try reflexivity. simpl. now rewrite <- app_assoc.
  - intros e j. apply binaries_frame.
  - intros e. apply audioChunks_frame.
Qed.

Lemma chunk_forwarding_witness :
  audioChunks
    (step (run loaded [StartClick "session_a" true; MicGranted true; WsOpen 0])
          (DataAvailable 0 [Byte.x52]))
  = [[Byte.x52]]
  /\ audioChunks
       (step (run loaded [StartClick "session_a" true; MicGranted true])
             (DataAvailable 0 [Byte.x52]))
     = [[Byte.x52]].
Proof.
  split.
  - destruct (chunk_forwarding
                (run loaded [StartClick "session_a" true; MicGranted true; WsOpen 0])
                0 [Byte.x52]) as (_ & H & _).
    destruct H as [H _]; [discriminate | reflexivity | exact H].
  - destruct (chunk_forwarding
                (run loaded [StartClick "session_a" true; MicGranted true])
                0 [Byte.x52]) as (_ & _ & H & _).
    destruct H as [H _]; [discriminate | reflexivity | exact H].
Defined.

(** C2, as stated, fails in two respects.  The timer callback reads the
    variable sessionId when it runs: after an abnormal close while streaming,
    a stop and a fresh start before the timer fires make the reconnection use
    the new session id, not the one of the closed socket.  And an explicit
    stop does not make the close clean: ws.onclose looks at wasClean only, so
    when the close that follows a stop click is unclean a reconnection is
    scheduled, and it opens a socket that announces the speaker type while
    nothing is recording. *)
Lemma reconnect_new_identity_and_after_stop :
  streaming (run loaded [StartClick "session_a" true; MicGranted true; WsOpen 0]) = true
  /\ sessionId (run loaded [StartClick "session_a" true; MicGranted true; WsOpen 0])
     = "session_a"
  /\ feasible loaded
       [StartClick "session_a" true; MicGranted true; WsOpen 0;
        WsError 0; WsClose 0 false;
        StopClick; StartClick "session_b" true; TimerFire] = true
  /\ current_socket
       (run loaded
          [StartClick "session_a" true; MicGranted true; WsOpen 0;
           WsError 0; WsClose 0 false;
           StopClick; StartClick "session_b" true; TimerFire])
     = Some {| ws_url := "ws://localhost:8000/ws/audio/session_b/";
               readyState := CONNECTING; ws_sent := [] |}
  /\ feasible loaded
       [StartClick "session_a" true; MicGranted true; WsOpen 0;
        StopClick; WsClose 0 false; TimerFire; WsOpen 1] = true
  /\ timers
       (run loaded
          [StartClick "session_a" true; MicGranted true; WsOpen 0;
           StopClick; WsClose 0 false])
     = [3000%Z]
  /\ is_recording
       (run loaded
          [StartClick "session_a" true; MicGranted true; WsOpen 0;
           StopClick; WsClose 0 false; TimerFire; WsOpen 1]) = false
  /\ current_socket
       (run loaded
          [StartClick "session_a" true; MicGranted true; WsOpen 0;
           StopClick; WsClose 0 false; TimerFire; WsOpen 1])
     = Some {| ws_url := "ws://localhost:8000/ws/audio/session_a/";
               readyState := OPEN; ws_sent := [SetSpeakerType "rep"] |}.
Proof. vm_compute. repeat split. Qed.

(** C2, amended.  In every state, hence while streaming, an abnormal close
    appends exactly one timer, with a delay of 3000 ms.  When a timer fires
    after any events that contain no start click, the socket it creates has
    the address of the session id that was current before the close, and it
    becomes the current socket.  A clean close appends no timer, and after it
    no timer is ever added unless a socket closes abnormally: the pending
    timers can only fire.  Whether a close is clean is all that matters: the
    close that follows a stop click schedules nothing when it is clean and
    one reconnection when it is not. *)
Theorem abnormal_close_reconnect s (k : nat) :
  timers (step s (WsClose k false)) = timers s ++ [3000%Z]
  /\ (forall es d rest,
       forallb (fun e => negb (is_start e)) es = true ->
       timers (run (step s (WsClose k false)) es) = d :: rest ->
       current_socket (step (run (step s (WsClose k false)) es) TimerFire)
       = Some {| ws_url := wsUrl s; readyState := CONNECTING; ws_sent := [] |})
  /\ timers (step s (WsClose k true)) = timers s
  /\ (forall es,
       forallb (fun e => negb (is_abnormal_close e)) es = true ->
       exists n, timers (run (step s (WsClose k true)) es) = drop n (timers s))
  /\ (forall wasClean : bool,
       timers (run s [StopClick; WsClose k wasClean])
       = timers s ++ (if wasClean then [] else [3000%Z])).
Proof.
  assert (Hclean : timers (step s (WsClose k true)) = timers s).
  { rewrite (close_schedules s k true). apply app_nil_r. }
  split; [apply (close_schedules s k false)|].
  split; [|split; [exact Hclean|split]].
  - intros es d rest Hes Ht.
    destruct (timer_fire_connects _ _ _ Ht) as (_ & _ & ->).
    do 2 f_equal. apply wsUrl_frame.
    + rewrite (sessionId_run _ _ Hes). now apply sessionId_frame.
    + rewrite page_run. apply page_frame.
  - intros es Hes. rewrite <- Hclean. now apply timers_only_fire.
  - intros wasClean.
    change (run s [StopClick; WsClose k wasClean])
      with (step (step s StopClick) (WsClose k wasClean)).
    rewrite close_schedules. f_equal. now apply timers_frame.
Qed.

Lemma abnormal_close_reconnect_witness :
  current_socket
    (step (run (step (run loaded [StartClick "session_a" true; MicGranted true; WsOpen 0])
                     (WsClose 0 false))
               [DataAvailable 0 [Byte.x52]; StopClick])
          TimerFire)
  = Some {| ws_url := wsUrl (run loaded [StartClick "session_a" true; MicGranted true;
                                         WsOpen 0]);
            readyState := CONNECTING; ws_sent := [] |}.
Proof.
  destruct (abnormal_close_reconnect
              (run loaded [StartClick "session_a" true; MicGranted true; WsOpen 0]) 0)
    as (_ & H & _).
  apply (H [DataAvailable 0 [Byte.x52]; StopClick] 3000%Z []); reflexivity.
Defined.

(** C4, as stated, fails in both parts.  Two timers are pending at once when
    two sockets of one session id close abnormally; and a timer that is
    pending when stop is clicked still fires, creates a socket and, once that
    socket opens, announces the speaker type on it. *)
Lemma reconnect_timers_pile_up_and_survive_stop :
  feasible loaded
    [StartClick "session_a" true; MicDenied; WsError 0; WsClose 0 false;
     StartClick "session_b" true; MicDenied; TimerFire;
     WsError 1; WsClose 1 false; WsError 2; WsClose 2 false] = true
  /\ ws_url <$>
       sockets
         (run loaded
            [StartClick "session_a" true; MicDenied; WsError 0; WsClose 0 false;
             StartClick "session_b" true; MicDenied; TimerFire])
     = ["ws://localhost:8000/ws/audio/session_a/";
        "ws://localhost:8000/ws/audio/session_b/";
        "ws://localhost:8000/ws/audio/session_b/"]
  /\ timers
       (run loaded
          [StartClick "session_a" true; MicDenied; WsError 0; WsClose 0 false;
           StartClick "session_b" true; MicDenied; TimerFire;
           WsError 1; WsClose 1 false; WsError 2; WsClose 2 false])
     = [3000%Z; 3000%Z]
  /\ feasible loaded
       [StartClick "session_a" true; MicGranted true; WsOpen 0;
        WsError 0; WsClose 0 false; StopClick; TimerFire; WsOpen 1] = true
  /\ timers
       (run loaded
          [StartClick "session_a" true; MicGranted true; WsOpen 0;
           WsError 0; WsClose 0 false; StopClick])
     = [3000%Z]
  /\ current_socket
       (run loaded
          [StartClick "session_a" true; MicGranted true; WsOpen 0;
           WsError 0; WsClose 0 false; StopClick; TimerFire; WsOpen 1])
     = Some {| ws_url := "ws://localhost:8000/ws/audio/session_a/";
               readyState := OPEN; ws_sent := [SetSpeakerType "rep"] |}.
Proof. vm_compute. repeat split. Qed.

(** C4, amended.  The script never cancels a timer.  Every event other
    than a firing leaves the pending timers in place, an abnormal close adding
    one more behind them, so that any number can be pending; a stop click and
    a start click leave them as they are; and a pending timer takes effect
    when it fires: it creates a connecting socket for the session id current
    at that moment and makes it the current socket. *)
Theorem reconnect_timers_never_cancelled s :
  (forall e, is_timer e = false ->
     timers (step s e)
     = timers s ++ (if is_abnormal_close e then [reconnect_delay] else []))
  /\ timers (step s StopClick) = timers s
  /\ (forall sid md, timers (step s (StartClick sid md)) = timers s)
  /\ (forall k, length (timers (step s (WsClose k false))) = S (length (timers s)))
  /\ (forall d rest, timers s = d :: rest ->
       timers (step s TimerFire) = rest
       /\ ws (step s TimerFire) = Some (length (sockets s))
       /\ current_socket (step s TimerFire)
          = Some {| ws_url := wsUrl s; readyState := CONNECTING; ws_sent := [] |}).
Proof.
  split; [|split; [|split; [|split]]].
  - intros e He. destruct (is_abnormal_close e) eqn:Ha.
    + destruct e as [] eqn:E; try discriminate.
      destruct wasClean; [discriminate | apply (close_schedules s k false)].
    + rewrite app_nil_r. now apply timers_frame.
  - now apply timers_frame.
  - intros sid md. now apply timers_frame.
  - intros k. rewrite (close_schedules s k false), length_app. simpl. lia.
  - apply timer_fire_connects.
Qed.

Lemma reconnect_timers_never_cancelled_witness :
  timers
    (step (run loaded [StartClick "session_a" true; MicGranted true; WsOpen 0;
                       WsClose 0 false; StopClick])
          TimerFire) = []
  /\ ws (step (run loaded [StartClick "session_a" true; MicGranted true; WsOpen 0;
                           WsClose 0 false; StopClick])
              TimerFire) = Some 1%nat.
Proof.
  destruct (reconnect_timers_never_cancelled
              (run loaded [StartClick "session_a" true; MicGranted true; WsOpen 0;
                           WsClose 0 false; StopClick]))
    as (_ & _ & _ & _ & H).
  destruct (H 3000%Z [] eq_refl) as (Ht & Hw & _).
  split; [exact Ht | exact Hw].
Defined.

End TransportClaims.

(** * Further properties of the highlighter *)

Section HighlighterMore.

Implicit Types p s m pre rest tail text : string.

#[local] Arguments wrap : simpl never.

Lemma chars_app a b : chars (a +:+ b) = chars a ++ chars b.
Proof. induction a as [|x a IH]; simpl; [reflexivity | now rewrite IH]. Qed.

Lemma chars_length s : length (chars s) = String.length s.
Proof. induction s as [|x s IH]; simpl; [reflexivity | now rewrite IH]. Qed.

Lemma length_append a b : String.length (a +:+ b) = String.length a + String.length b.
Proof. induction a as [|x a IH]; simpl; [reflexivity | now rewrite IH]. Qed.

Lemma length_wrap m : String.length (wrap m) = String.length m + marker_length.
Proof. unfold wrap, marker_length. rewrite !length_append. lia. Qed.

(** A pattern that matches nowhere leaves the text as it is. *)
Lemma replace_all_absent p s : occurs p s = false -> replace_all p s = s.
Proof.
  unfold replace_all. induction s as [|c s IH]; simpl.
  - destruct p; [discriminate | reflexivity].
  - destruct (match_at p (String c s)); [discriminate|].
    intros H. now rewrite (IH H).
Qed.

(** The scan emits every character it passes, in order: the text behind the
    characters still to skip is a subsequence of the output. *)
Lemma replace_from_step p c s :
  replace_from p 0 (String c s)
  = match match_at p (String c s) with
    | Some m =>
        match String.length m with
        | O => wrap m +:+ String c (replace_from p 0 s)
        | S k => wrap m +:+ replace_from p k s
        end
    | None => String c (replace_from p 0 s)
    end.
Proof. reflexivity. Qed.

Lemma replace_from_sublist p s k :
  k <= String.length s -> sublist (drop k (chars s)) (chars (replace_from p k s)).
Proof.
  revert k. induction s as [|c s IH]; intros k Hk.
  - simpl. rewrite drop_nil. apply sublist_nil_l.
  - destruct k as [|k]; [|apply IH; simpl in Hk; lia].
    rewrite replace_from_step.
    destruct (match_at p (String c s)) as [m|] eqn:E.
    + destruct (match_at_prefix _ _ _ E) as (rest & Hs & _).
      destruct m as [|d m]; cbn [String.length].
      * rewrite chars_app. apply sublist_inserts_l.
        apply sublist_skip. apply (IH 0). lia.
      * cbn [String.append] in Hs. injection Hs as <- ->.
        unfold wrap. rewrite !chars_app, <- !app_assoc.
        apply sublist_inserts_l. apply sublist_skip.
        rewrite chars_app. apply sublist_app; [reflexivity|].
        apply sublist_inserts_l.
        assert (Hd : drop (String.length m) (chars (m +:+ rest)) = chars rest).
        { rewrite chars_app, <- chars_length. now rewrite drop_app_length. }
        rewrite <- Hd. apply IH. rewrite length_append. lia.
    + apply sublist_skip. apply (IH 0). lia.
Qed.

Lemma replace_all_sublist p s : sublist (chars s) (chars (replace_all p s)).
Proof. apply (replace_from_sublist p s 0). lia. Qed.

Lemma replace_all_length p s : String.length s <= String.length (replace_all p s).
Proof.
  rewrite <- !chars_length. apply sublist_length, replace_all_sublist.
Qed.

(** A match of the whole of [m ++ rest] by [m] is a match of [m] alone. *)
Lemma match_at_own p m rest : match_at p (m +:+ rest) = Some m -> match_at p m = Some m.
Proof.
  revert m. induction p as [|c p IH]; intros m H; simpl in *.
  - injection H as <-. reflexivity.
  - destruct m as [|d m]; simpl in H.
    + destruct rest as [|r rest]; [discriminate|].
      destruct (canon_eqb c r); [|discriminate].
      destruct (match_at p rest); discriminate.
    + destruct (canon_eqb c d); [|discriminate].
      destruct (match_at p (m +:+ rest)) as [x|] eqn:E; [|discriminate].
      injection H as ->. now rewrite (IH _ E).
Qed.

Lemma occurs_intro p pre x m : match_at p x = Some m -> occurs p (pre +:+ x) = true.
Proof.
  intros H. induction pre as [|c pre IH]; simpl.
  - destruct x; simpl; now rewrite H.
  - now destruct (match_at p (String c (pre +:+ x))).
Qed.

(** One pass over a text in which the non-empty pattern occurs makes the text
    longer by a wrapper at least, and the pattern still occurs in the result. *)
Lemma replace_all_grows p s :
  p <> EmptyString -> occurs p s = true ->
  String.length s + marker_length <= String.length (replace_all p s)
  /\ occurs p (replace_all p s) = true.
Proof.
  intros Hp Ho.
  destruct (replace_all_first _ _ Hp Ho) as (pre & m & rest & -> & Hm & ->).
  split.
  - rewrite !length_append, length_wrap.
    pose proof (replace_all_length p rest). lia.
  - unfold wrap. rewrite !append_assoc.
    rewrite <- (append_assoc pre). apply (occurs_intro p _ _ m).
    apply match_at_app. now apply (match_at_own p m rest).
Qed.

Lemma highlight_from_none (kws : list Keyword) : fold_left highlight_step kws None = None.
Proof. induction kws as [|kw kws IH]; simpl; [reflexivity | exact IH]. Qed.

End HighlighterMore.

Section HighlighterExtras.

Implicit Types text : string.

#[local] Arguments wrap : simpl never.

(** X1. Keywords that are plain words and match nowhere in the text leave
    the text exactly as it is, however many they are. *)
Theorem highlight_absent_keywords_identity (kws : list Keyword) text :
  forallb (plain_absent text) kws = true ->
  highlightKeywordsInText kws text = Some text.
Proof.
  unfold highlightKeywordsInText.
  induction kws as [|kw kws IH]; intros H; simpl in *; [reflexivity|].
  apply andb_true_iff in H as [Hk Hs]. unfold plain_absent in Hk.
  apply andb_true_iff in Hk as [Hl Ho]. apply negb_true_iff in Ho.
  rewrite Hl, (replace_all_absent _ _ Ho). now apply IH.
Qed.

Lemma highlight_absent_keywords_identity_witness :
  highlightKeywordsInText [keyword_of 1 "price"; keyword_of 2 "demo"] "hello world"
  = Some "hello world".
Proof.
  apply (highlight_absent_keywords_identity
           [keyword_of 1 "price"; keyword_of 2 "demo"] "hello world").
  reflexivity.
Defined.

(** X2. With plain keywords the highlighter returns a text, and it deletes
    and reorders nothing: the characters of the input are a subsequence of
    the output. *)
Theorem highlight_keeps_text (kws : list Keyword) text :
  forallb plain kws = true ->
  exists out,
    highlightKeywordsInText kws text = Some out /\ sublist (chars text) (chars out).
Proof.
  unfold highlightKeywordsInText. revert text.
  induction kws as [|kw kws IH]; intros text H; simpl in *.
  - exists text. split; reflexivity.
  - apply andb_true_iff in H as [Hk Hs]. unfold plain in Hk. rewrite Hk.
    destruct (IH (replace_all (kw_word kw) text) Hs) as (out & Ho & Hsub).
    exists out. split; [exact Ho|].
    etransitivity; [apply (replace_all_sublist (kw_word kw) text) | exact Hsub].
Qed.

Lemma highlight_keeps_text_witness :
  exists out,
    highlightKeywordsInText [keyword_of 1 "cat"; keyword_of 2 "span"] "a Cat"
    = Some out
    /\ sublist (chars "a Cat") (chars out).
Proof.
  apply (highlight_keeps_text [keyword_of 1 "cat"; keyword_of 2 "span"] "a Cat").
  reflexivity.
Defined.

(** X3. The highlighter is not idempotent on any plain non-empty keyword that
    occurs in the text: the first pass adds a wrapper at least, and a second
    pass over its result finds the keyword again and adds a wrapper more. *)
Theorem highlight_not_idempotent (kw : Keyword) text :
  plain kw = true ->
  kw_word kw <> EmptyString ->
  occurs (kw_word kw) text = true ->
  exists out out2,
    highlightKeywordsInText [kw] text = Some out
    /\ highlightKeywordsInText [kw] out = Some out2
    /\ String.length text + marker_length <= String.length out
    /\ String.length out + marker_length <= String.length out2
    /\ out2 <> out.
Proof.
  intros Hl Hp Ho. unfold plain in Hl.
  destruct (replace_all_grows _ _ Hp Ho) as [Hlen Ho1].
  destruct (replace_all_grows _ _ Hp Ho1) as [Hlen2 _].
  exists (replace_all (kw_word kw) text).
  exists (replace_all (kw_word kw) (replace_all (kw_word kw) text)).
  unfold highlightKeywordsInText. simpl. rewrite Hl.
  repeat split; try assumption.
  intros Heq. rewrite Heq in Hlen2. unfold marker_length in Hlen2. simpl in Hlen2. lia.
Qed.

Lemma highlight_not_idempotent_witness :
  exists out out2,
    highlightKeywordsInText [keyword_of 1 "cat"] "a Cat" = Some out
    /\ highlightKeywordsInText [keyword_of 1 "cat"] out = Some out2
    /\ String.length "a Cat" + marker_length <= String.length out
    /\ String.length out + marker_length <= String.length out2
    /\ out2 <> out.
Proof.
  apply (highlight_not_idempotent (keyword_of 1 "cat") "a Cat").
  - reflexivity.
  - discriminate.
  - reflexivity.
Defined.

(** X4. Highlighting with two keyword lists one after the other is
    highlighting with their concatenation: the result of the first list is
    the input of the second, and an uninterpreted word in the first list
    leaves nothing for the second. *)
Theorem highlight_app (kws1 kws2 : list Keyword) text :
  highlightKeywordsInText (kws1 ++ kws2) text
  = match highlightKeywordsInText kws1 text with
    | Some mid => highlightKeywordsInText kws2 mid
    | None => None
    end.
Proof.
  unfold highlightKeywordsInText. rewrite fold_left_app.
  destruct (fold_left highlight_step kws1 (Some text)); [reflexivity|].
  apply highlight_from_none.
Qed.

(** X5. A keyword whose word is empty matches at every position: the pass
    puts an empty wrapper in front of every character and one at the end, so
    a text of n characters grows by n + 1 wrappers. *)
Theorem highlight_empty_word (kw : Keyword) text :
  kw_word kw = EmptyString ->
  exists out,
    highlightKeywordsInText [kw] text = Some out
    /\ String.length out
       = String.length text + (String.length text + 1) * marker_length
    /\ (forall c rest, text = String c rest ->
        exists out', highlightKeywordsInText [kw] rest = Some out'
                     /\ out = wrap EmptyString +:+ String c out').
Proof.
  intros Hw. unfold highlightKeywordsInText. simpl. rewrite Hw. simpl.
  exists (replace_all EmptyString text). split; [reflexivity|]. split.
  - unfold replace_all. induction text as [|c text IH].
    + reflexivity.
    + rewrite replace_from_step. cbn [match_at String.length].
      rewrite length_append, length_wrap. cbn [String.length].
      rewrite IH. lia.
  - intros c rest ->. exists (replace_all EmptyString rest). split; reflexivity.
Qed.

Lemma highlight_empty_word_witness :
  exists out,
    highlightKeywordsInText [keyword_of 1 EmptyString] "ab" = Some out
    /\ String.length out = String.length "ab" + (String.length "ab" + 1) * marker_length
    /\ (forall c rest, "ab" = String c rest ->
        exists out', highlightKeywordsInText [keyword_of 1 EmptyString] rest = Some out'
                     /\ out = wrap EmptyString +:+ String c out').
Proof.
  apply (highlight_empty_word (keyword_of 1 EmptyString) "ab"). reflexivity.
Defined.

(** X6. One pass with a plain non-empty keyword that occurs in the text: the
    text in front of the leftmost match is copied, the match is wrapped in
    the spelling it has in the text, which is the keyword up to the case of
    its letters, and the rest of the result is the pass over the text behind
    the match. *)
Theorem single_keyword_pass (kw : Keyword) text :
  plain kw = true ->
  kw_word kw <> EmptyString ->
  occurs (kw_word kw) text = true ->
  exists pre m rest out_rest,
    text = pre +:+ m +:+ rest
    /\ match_at (kw_word kw) m = Some m
    /\ clear_before (kw_word kw) pre (m +:+ rest) = true
    /\ highlightKeywordsInText [kw] rest = Some out_rest
    /\ highlightKeywordsInText [kw] text = Some (pre +:+ wrap m +:+ out_rest).
Proof.
  intros Hl Hp Ho. unfold plain in Hl.
  destruct (occurs_split _ _ Ho) as (pre & m & rest & -> & Hm & Hc).
  exists pre, m, rest, (replace_all (kw_word kw) rest).
  unfold highlightKeywordsInText. simpl. rewrite Hl.
  repeat split; try assumption.
  - now apply (match_at_own _ m rest).
  - rewrite (replace_all_clear _ _ _ Hc).
    now rewrite (replace_all_match _ _ _ (match_nonempty _ _ _ Hp Hm) Hm).
Qed.

Lemma single_keyword_pass_witness :
  exists pre m rest out_rest,
    "my Cat and cat" = pre +:+ m +:+ rest
    /\ match_at "cat" m = Some m
    /\ clear_before "cat" pre (m +:+ rest) = true
    /\ highlightKeywordsInText [keyword_of 1 "cat"] rest = Some out_rest
    /\ highlightKeywordsInText [keyword_of 1 "cat"] "my Cat and cat"
       = Some (pre +:+ wrap m +:+ out_rest).
Proof.
  apply (single_keyword_pass (keyword_of 1 "cat") "my Cat and cat").
  - reflexivity.
  - discriminate.
  - reflexivity.
Defined.

End HighlighterExtras.

(** * Further properties of the keyword cache *)

Section KeywordCache.

Implicit Types s : State.
Implicit Types w : string.

Lemma trim_start_blank w : trim_start w = EmptyString <-> blank w = true.
Proof.
  induction w as [|c w IH]; simpl; [tauto|].
  destruct (is_space c); simpl; [exact IH|]. split; discriminate.
Qed.

Lemma trim_end_blank w : trim_end w = EmptyString <-> blank w = true.
Proof.
  induction w as [|c w IH]; simpl; [tauto|].
  destruct (trim_end w) as [|d t] eqn:E.
  - destruct (is_space c); simpl; [tauto|]. split; discriminate.
  - split; [discriminate|]. intros H. apply andb_true_iff in H as [_ H].
    apply IH in H. discriminate.
Qed.

Lemma blank_trim_start w : blank (trim_start w) = blank w.
Proof.
  induction w as [|c w IH]; simpl; [reflexivity|].
  destruct (is_space c) eqn:E; simpl; [exact IH | now rewrite E].
Qed.

Lemma trim_blank w : trim w = EmptyString <-> blank w = true.
Proof. unfold trim. now rewrite trim_end_blank, blank_trim_start. Qed.

Lemma trim_start_first w c : first_char (trim_start w) = Some c -> is_space c = false.
Proof.
  induction w as [|d w IH]; simpl; [discriminate|].
  destruct (is_space d) eqn:E; simpl; [exact IH|]. now intros [= <-].
Qed.

Lemma trim_end_first w c :
  first_char (trim_end w) = Some c -> first_char w = Some c.
Proof.
  destruct w as [|d w]; simpl; [discriminate|].
  destruct (trim_end w); [destruct (is_space d); [discriminate|]|]; simpl; auto.
Qed.

Lemma trim_end_last w c : last_char (trim_end w) = Some c -> is_space c = false.
Proof.
  induction w as [|d w IH]; simpl; [discriminate|].
  destruct (trim_end w) as [|x t] eqn:E.
  - destruct (is_space d) eqn:Ed; simpl; [discriminate|]. now intros [= <-].
  - simpl. simpl in IH. exact IH.
Qed.

(** X7. The add handler posts nothing exactly when the keyword input is
    blank.  A body it posts carries the trimmed input as its word: the word
    is not empty, neither starts nor ends with white space, and is sent as
    active, with the trimmed talking point. *)
Theorem blank_keyword_not_posted s :
  (addKeyword_request s = None <-> blank (newKeywordInput s) = true)
  /\ (forall kw, addKeyword_request s = Some kw ->
      kw_word kw = trim (newKeywordInput s)
      /\ kw_word kw <> EmptyString
      /\ (forall c, first_char (kw_word kw) = Some c -> is_space c = false)
      /\ (forall c, last_char (kw_word kw) = Some c -> is_space c = false)
      /\ kw_talking_point kw = trim (newTalkingPointInput s)
      /\ kw_is_active kw = true).
Proof.
  unfold addKeyword_request. split.
  - rewrite <- trim_blank. destruct (trim (newKeywordInput s)); split;
      congruence.
  - intros kw H. destruct (trim (newKeywordInput s)) as [|c t] eqn:E; [discriminate|].
    injection H as <-. simpl. repeat split; try discriminate.
    + intros x Hx. apply (trim_start_first (newKeywordInput s)).
      apply trim_end_first. fold (trim (newKeywordInput s)). rewrite E. exact Hx.
    + intros x Hx. apply (trim_end_last (trim_start (newKeywordInput s))).
      fold (trim (newKeywordInput s)). rewrite E. exact Hx.
Qed.

Lemma filter_other_ids (kws : list Keyword) (i : Z) :
  i ∉ (kw_id <$> kws) -> filter (fun kw => kw_id kw ≠ i) kws = kws.
Proof.
  induction kws as [|kw kws IH]; intros H; [reflexivity|].
  rewrite fmap_cons in H. apply not_elem_of_cons in H as [Hne Hin].
  rewrite filter_cons_True by congruence. now rewrite IH.
Qed.

(** X8. Creating a keyword under an id the cache does not hold and then
    deleting that id gives the cache back as it was. *)
Theorem add_then_delete_roundtrip s (newKw : Keyword) :
  kw_id newKw ∉ cache_ids s ->
  keywords
    (run s [AddKeywordResponse (RespOk newKw);
            DeleteKeywordResponse (kw_id newKw) (RespOk tt)])
  = keywords s.
Proof.
  intros H. simpl. rewrite filter_app, (filter_other_ids _ _ H).
  rewrite filter_cons_False by (intros Hne; now apply Hne).
  rewrite filter_nil. apply app_nil_r.
Qed.

Lemma add_then_delete_roundtrip_witness :
  keywords
    (run (run loaded [KeywordsLoaded (RespOk [keyword_of 1 "cat"])])
       [AddKeywordResponse (RespOk (keyword_of 2 "dog"));
        DeleteKeywordResponse 2 (RespOk tt)])
  = keywords (run loaded [KeywordsLoaded (RespOk [keyword_of 1 "cat"])]).
Proof.
  apply (add_then_delete_roundtrip
           (run loaded [KeywordsLoaded (RespOk [keyword_of 1 "cat"])])
           (keyword_of 2 "dog")).
  vm_compute. intros H. apply list_elem_of_In in H. simpl in H.
  destruct H as [H|[]]. discriminate.
Defined.

(** X9. A successful delete removes every cached keyword of the id and no
    other: the id is gone from the cache, the keywords of other ids stay,
    in their order, and deleting an id the cache does not hold changes
    nothing. *)
Theorem delete_removes_exactly s (keywordId : Z) :
  (keywordId ∉ cache_ids (step s (DeleteKeywordResponse keywordId (RespOk tt))))
  /\ sublist (keywords (step s (DeleteKeywordResponse keywordId (RespOk tt))))
             (keywords s)
  /\ (forall kw, kw ∈ keywords s -> kw_id kw <> keywordId ->
      kw ∈ keywords (step s (DeleteKeywordResponse keywordId (RespOk tt))))
  /\ (keywordId ∉ cache_ids s ->
      keywords (step s (DeleteKeywordResponse keywordId (RespOk tt))) = keywords s).
Proof.
  unfold cache_ids. simpl. repeat split.
  - intros H. apply list_elem_of_fmap in H as (kw & -> & Hin).
    apply list_elem_of_filter in Hin as [Hne _]. now apply Hne.
  - apply sublist_filter.
  - intros kw Hin Hne. apply list_elem_of_filter. now split.
  - apply filter_other_ids.
Qed.

(** X10. Successful create responses append to the cache in the order they
    arrive, which is the order the highlighter applies the keywords in. *)
Theorem creations_in_order s (kws : list Keyword) :
  keywords (run s (creations kws)) = keywords s ++ kws.
Proof.
  revert s. induction kws as [|kw kws IH]; intros s.
  - simpl. now rewrite app_nil_r.
  - change (run s (creations (kw :: kws)))
      with (run (step s (AddKeywordResponse (RespOk kw))) (creations kws)).
    rewrite IH. simpl. now rewrite <- app_assoc.
Qed.

End KeywordCache.

(** * Further properties of the session *)

Section Reach.

Implicit Types s : State.
Implicit Types l : list WebSocket.

#[local] Arguments frames_at : simpl never.
#[local] Arguments state_at : simpl never.
#[local] Arguments url_at : simpl never.
#[local] Arguments newest : simpl never.

Lemma run_invariant (P : State -> Prop) :
  (forall s e, P s -> P (step s e)) -> forall es s, P s -> P (run s es).
Proof.
  intros Hstep es. induction es as [|e es IH]; intros s H; [exact H|].
  apply (IH (step s e)), Hstep, H.
Qed.

Lemma run_cons s e es : run s (e :: es) = run (step s e) es.
Proof. reflexivity. Qed.

Lemma run_app s es1 es2 : run s (es1 ++ es2) = run (run s es1) es2.
Proof. apply fold_left_app. Qed.

Lemma feasible_app s es1 es2 :
  feasible s (es1 ++ es2) = feasible s es1 && feasible (run s es1) es2.
Proof.
  revert s. induction es1 as [|e es1 IH]; intros s; simpl; [reflexivity|].
  rewrite IH. now rewrite andb_assoc.
Qed.




Lemma newest_lt {A : Type} (l : list A) k : newest l = Some k -> k < length l.
Proof. destruct l; [discriminate|]. unfold newest. simpl. intros [= <-]. lia. Qed.


(** Lookups in the socket heap after the three changes the handlers make. *)
Lemma frames_at_snoc l k (w : WebSocket) :
  ws_sent w = [] -> frames_at (l ++ [w]) k = frames_at l k.
Proof.
  intros Hw. unfold frames_at.
  destruct (decide (k < length l)) as [Hlt|Hge].
  - now rewrite lookup_app_l.
  - rewrite lookup_app_r by lia. rewrite (lookup_ge_None_2 l) by lia.
    destruct (k - length l) as [|n]; simpl; [now rewrite Hw | reflexivity].
Qed.

Lemma frames_at_alter (f : WebSocket -> WebSocket) l j k :
  (forall w, ws_sent (f w) = ws_sent w) -> frames_at (alter f j l) k = frames_at l k.
Proof.
  intros Hf. unfold frames_at. rewrite list_lookup_alter.
  case_decide; [subst|reflexivity]. destruct (l !! k); simpl; [apply Hf | reflexivity].
Qed.

Lemma frames_at_insert l n k (w : WebSocket) (f : Frame) :
  l !! n = Some w ->
  frames_at (<[n := with_frame f w]> l) k
  = frames_at l k ++ (if decide (n = k) then [f] else []).
Proof.
  intros Hn. unfold frames_at. case_decide as Hk.
  - subst. rewrite list_lookup_insert_eq by (eapply lookup_lt_Some; eassumption).
    now rewrite Hn.
  - rewrite list_lookup_insert_ne by assumption. now rewrite app_nil_r.
Qed.

Lemma state_at_snoc l k (w : WebSocket) :
  state_at (l ++ [w]) k
  = if decide (k = length l) then Some (readyState w) else state_at l k.
Proof.
  unfold state_at. case_decide as Hk.
  - subst. rewrite lookup_app_r by lia. now rewrite Nat.sub_diag.
  - destruct (decide (k < length l)) as [Hlt|Hge].
    + now rewrite lookup_app_l.
    + rewrite lookup_app_r by lia. rewrite (lookup_ge_None_2 l) by lia.
      destruct (k - length l) as [|n] eqn:E; [lia | reflexivity].
Qed.

Lemma state_at_insert l n k (w : WebSocket) (f : Frame) :
  l !! n = Some w -> state_at (<[n := with_frame f w]> l) k = state_at l k.
Proof.
  intros Hn. unfold state_at. destruct (decide (n = k)) as [->|Hk].
  - rewrite list_lookup_insert_eq by (eapply lookup_lt_Some; eassumption).
    now rewrite Hn.
  - now rewrite list_lookup_insert_ne.
Qed.

Lemma state_at_lookup l k (w : WebSocket) :
  l !! k = Some w -> state_at l k = Some (readyState w).
Proof. unfold state_at. now intros ->. Qed.

Lemma frames_at_lookup l k (w : WebSocket) :
  l !! k = Some w -> frames_at l k = ws_sent w.
Proof. unfold frames_at. now intros ->. Qed.

Ltac heap_simpl :=
  repeat first
    [ rewrite frames_at_snoc by reflexivity
    | rewrite (frames_at_alter (with_readyState _)) by reflexivity
    | rewrite (frames_at_alter close_socket) by (intros; apply close_socket_sent)
    | match goal with
      | Hw : ?l !! ?n = Some ?w |- context [frames_at (<[?n := with_frame ?f ?w]> ?l) ?k] =>
          rewrite (frames_at_insert l n k w f Hw)
      | Hw : ?l !! ?n = Some ?w |- context [state_at (<[?n := with_frame ?f ?w]> ?l) ?k] =>
          rewrite (state_at_insert l n k w f Hw)
      end ].

(** What one event adds to the frames of socket [k]: nothing, or one frame,
    and then [k] is the current socket, it is open, and audio is added only
    if it was open before the event. *)
Lemma frames_step s e k :
  exists extra,
    frames_at (sockets (step s e)) k = frames_at (sockets s) k ++ extra
    /\ (extra = [] \/
        exists f, extra = [f] /\ ws s = Some k
          /\ state_at (sockets (step s e)) k = Some OPEN
          /\ (is_binary f = true -> ws_is_open s = true)).
Proof.
  destruct e; handler_cases; heap_simpl;
    try (exists []; split; [now rewrite app_nil_r | now left]).
  all: case_decide; [subst | exists []; split; [reflexivity | now left]].
  all: eexists [_]; split; [reflexivity|]; right; eexists; repeat split;
    try reflexivity; try (erewrite state_at_lookup by eassumption; congruence);
    try (simpl; discriminate); try (intros _; assumption).
Qed.

Lemma ws_is_open_state s k :
  ws s = Some k -> ws_is_open s = true <-> state_at (sockets s) k = Some OPEN.
Proof.
  intros Hk. unfold ws_is_open, current_socket, state_at. rewrite Hk.
  destruct (sockets s !! k) as [w|]; simpl; [|split; discriminate].
  destruct (readyState w); simpl; split; congruence.
Qed.

Lemma state_at_alter_set l j k (r : ReadyState) :
  state_at (alter (with_readyState r) j l) k = Some OPEN ->
  r <> OPEN -> state_at l k = Some OPEN.
Proof.
  unfold state_at. rewrite list_lookup_alter. case_decide; [subst|auto].
  destruct (l !! k); simpl; [|discriminate]. congruence.
Qed.

Lemma state_at_alter_close l j k :
  state_at (alter close_socket j l) k = Some OPEN -> state_at l k = Some OPEN.
Proof.
  unfold state_at. rewrite list_lookup_alter. case_decide; [subst|auto].
  destruct (l !! k) as [w|]; simpl; [|discriminate].
  unfold close_socket. destruct (readyState w) eqn:E; simpl; rewrite ?E; congruence.
Qed.

(** The current socket is open after an event only if it was the current
    socket, open, before the event, or the event put a frame on it. *)
Lemma open_current_step s e k :
  ws (step s e) = Some k ->
  state_at (sockets (step s e)) k = Some OPEN ->
  (ws s = Some k /\ state_at (sockets s) k = Some OPEN)
  \/ frames_at (sockets (step s e)) k <> [].
Proof.
  destruct e; handler_cases; heap_simpl; intros Hws Hst; simplify_eq;
    try (left; split; [assumption || reflexivity | assumption]);
    try (rewrite state_at_snoc in Hst; case_decide; [discriminate | lia]);
    try (left; split; [assumption || reflexivity |];
         first [ now apply state_at_alter_close in Hst
               | apply state_at_alter_set in Hst; [assumption | discriminate] ]).
  all: try (right; rewrite decide_True by reflexivity; intros Hnil;
            apply app_eq_nil in Hnil as [_ Hnil]; discriminate).
  all: try (exfalso; erewrite state_at_lookup in Hst by eassumption; congruence).
  exfalso. unfold state_at in Hst. rewrite H1 in Hst. discriminate.
Qed.

Lemma url_at_snoc l k (w : WebSocket) :
  url_at (l ++ [w]) k = if decide (k = length l) then Some (ws_url w) else url_at l k.
Proof.
  unfold url_at. case_decide as Hk.
  - subst. rewrite lookup_app_r by lia. now rewrite Nat.sub_diag.
  - destruct (decide (k < length l)) as [Hlt|Hge].
    + now rewrite lookup_app_l.
    + rewrite lookup_app_r by lia. rewrite (lookup_ge_None_2 l) by lia.
      destruct (k - length l) as [|n] eqn:E; [lia | reflexivity].
Qed.

Lemma url_at_alter (f : WebSocket -> WebSocket) l j k :
  (forall w, ws_url (f w) = ws_url w) -> url_at (alter f j l) k = url_at l k.
Proof.
  intros Hf. unfold url_at. rewrite list_lookup_alter.
  case_decide; [subst|reflexivity]. destruct (l !! k); simpl; [now rewrite Hf | reflexivity].
Qed.

Lemma url_at_insert l n k (w : WebSocket) (f : Frame) :
  l !! n = Some w -> url_at (<[n := with_frame f w]> l) k = url_at l k.
Proof.
  intros Hn. unfold url_at. destruct (decide (n = k)) as [->|Hk].
  - rewrite list_lookup_insert_eq by (eapply lookup_lt_Some; eassumption).
    now rewrite Hn.
  - now rewrite list_lookup_insert_ne.
Qed.

Lemma close_socket_url (w : WebSocket) : ws_url (close_socket w) = ws_url w.
Proof. unfold close_socket. now destruct (readyState w). Qed.

(** The current socket was created for the current session id. *)
Lemma url_step s e :
  (forall k, ws s = Some k -> url_at (sockets s) k = Some (wsUrl s)) ->
  forall k, ws (step s e) = Some k ->
    url_at (sockets (step s e)) k = Some (wsUrl (step s e)).
Proof.
  intros Hu k. destruct e; handler_cases; intros Hk;
    repeat first
      [ rewrite (url_at_alter (with_readyState _)) by reflexivity
      | rewrite (url_at_alter close_socket) by (intros; apply close_socket_url)
      | match goal with
        | Hw : ?l !! ?n = Some ?w |- context [url_at (<[?n := with_frame ?f ?w]> ?l) ?j] =>
            rewrite (url_at_insert l n j w f Hw)
        end ];
    try (apply Hu; congruence).
  all: simplify_eq; rewrite url_at_snoc, decide_True by reflexivity; reflexivity.
Qed.

Lemma announced_first_app (fs : list Frame) (f : Frame) :
  announced_first fs = true ->
  (is_binary f = true -> fs <> []) ->
  announced_first (fs ++ [f]) = true.
Proof.
  destruct fs as [|g fs]; simpl; [|auto].
  intros _ H. destruct (is_binary f); [now destruct H | reflexivity].
Qed.

(** Every socket's first frame is an announcement, and the current socket,
    once open, has sent one. *)
Lemma announced_step s e :
  (forall k, announced_first (frames_at (sockets s) k) = true) ->
  (forall k, ws s = Some k -> state_at (sockets s) k = Some OPEN ->
             frames_at (sockets s) k <> []) ->
  (forall k, announced_first (frames_at (sockets (step s e)) k) = true)
  /\ (forall k, ws (step s e) = Some k ->
                state_at (sockets (step s e)) k = Some OPEN ->
                frames_at (sockets (step s e)) k <> []).
Proof.
  intros K1 K2. split; intros k.
  - destruct (frames_step s e k) as (extra & -> & [->|(f & -> & Hk & _ & Hb)]).
    + rewrite app_nil_r. apply K1.
    + apply announced_first_app; [apply K1|].
      intros Hf. apply K2; [assumption|]. apply ws_is_open_state; auto.
  - intros Hk Ho. destruct (open_current_step s e k Hk Ho) as [[Hk0 Ho0]|H]; [|exact H].
    destruct (frames_step s e k) as (extra & -> & _).
    intros Hnil. apply app_eq_nil in Hnil as [Hnil _]. now apply (K2 k).
Qed.

End Reach.

Section ReachExtras.

Implicit Types s : State.

#[local] Arguments frames_at : simpl never.
#[local] Arguments state_at : simpl never.
#[local] Arguments url_at : simpl never.
#[local] Arguments newest : simpl never.


(** X12. Whatever events have been delivered since the page was loaded, the
    current socket exists and was created for the address of the current
    session id. *)
Theorem current_socket_address (p : Page) (sid : string) (es : list Event) (k : nat) :
  ws (run (initial p sid) es) = Some k ->
  socket_url (run (initial p sid) es) k = Some (wsUrl (run (initial p sid) es)).
Proof.
  revert k.
  apply (run_invariant
           (fun s => forall k, ws s = Some k -> socket_url s k = Some (wsUrl s))).
  - intros s e H k. apply (url_step s e H k).
  - intros k Hk. discriminate.
Qed.

Lemma current_socket_address_witness :
  socket_url
    (run (initial example_page "session_0")
         [StartClick "session_a" true; MicDenied; WsError 0; WsClose 0 false;
          TimerFire]) 1
  = Some (wsUrl
            (run (initial example_page "session_0")
                 [StartClick "session_a" true; MicDenied; WsError 0; WsClose 0 false;
                  TimerFire])).
Proof.
  apply (current_socket_address example_page "session_0"
           [StartClick "session_a" true; MicDenied; WsError 0; WsClose 0 false;
            TimerFire] 1).
  reflexivity.
Defined.

(** X13. A socket's frames are append-only.  One event adds at most one
    frame to a socket, and only to the socket that is current and open; over
    any run the frames a socket had sent stay a prefix of what it has sent. *)
Theorem frames_append_only s (k : nat) :
  (forall e, exists extra,
      frames_sent (step s e) k = frames_sent s k ++ extra
      /\ (extra = [] \/
          exists f, extra = [f] /\ ws s = Some k
                    /\ socket_state (step s e) k = Some OPEN))
  /\ (forall es, frames_sent s k `prefix_of` frames_sent (run s es) k).
Proof.
  split.
  - intros e. destruct (frames_step s e k) as (extra & He & Hx).
    exists extra. split; [exact He|].
    destruct Hx as [->|(f & -> & Hk & Ho & _)]; [now left|].
    right. exists f. auto.
  - intros es. revert s. induction es as [|e es IH]; intros s; [reflexivity|].
    rewrite run_cons. etransitivity; [|apply IH].
    destruct (frames_step s e k) as (extra & He & _).
    exists extra. exact He.
Qed.

(** X14. Whatever events have been delivered since the page was loaded,
    audio is never the first frame of a socket: the first frame a socket
    sends is the speaker type announcement. *)
Theorem announcement_precedes_audio (p : Page) (sid : string) (es : list Event) (k : nat) :
  announced_first (frames_sent (run (initial p sid) es) k) = true.
Proof.
  revert k.
  assert (H : (fun s =>
            (forall k, announced_first (frames_at (sockets s) k) = true)
            /\ (forall k, ws s = Some k -> state_at (sockets s) k = Some OPEN ->
                          frames_at (sockets s) k <> []))
          (run (initial p sid) es)).
  { apply run_invariant.
    - intros s e [K1 K2]. now apply announced_step.
    - split; [reflexivity | discriminate]. }
  exact (proj1 H).
Qed.

End ReachExtras.

Section TransportExtras.

Implicit Types s : State.
Implicit Types l : list WebSocket.

#[local] Arguments shut_at : simpl never.
#[local] Arguments frames_at : simpl never.
#[local] Arguments state_at : simpl never.
#[local] Arguments url_at : simpl never.
#[local] Arguments newest : simpl never.

(** One chunk on an open current socket. *)
Lemma data_step_open s k (r : nat) (d : Blob) :
  ws s = Some k -> state_at (sockets s) k = Some OPEN ->
  ws (step s (DataAvailable r d)) = Some k
  /\ state_at (sockets (step s (DataAvailable r d))) k = Some OPEN
  /\ frames_at (sockets (step s (DataAvailable r d))) k
     = frames_at (sockets s) k ++ (if has_data d then [Binary d] else [])
  /\ audioChunks (step s (DataAvailable r d))
     = audioChunks s ++ (if has_data d then [d] else []).
Proof.
  intros Hk Ho. pose proof (proj2 (ws_is_open_state s k Hk) Ho) as Hopen.
  unfold step, mediaRecorder_ondataavailable, has_data.
  destruct (0 <? length d)%nat; simpl.
  - set (s1 := set_audioChunks _ _).
    assert (Ho1 : ws_is_open s1 = true) by exact Hopen. rewrite Ho1.
    destruct (ws_send_open s1 (Binary d) Ho1) as (n & w & Hn & Hw & _ & ->).
    assert (n = k) by (change (ws s = Some n) in Hn; congruence). subst n.
    change (sockets s1) with (sockets s) in *. simpl.
    rewrite (frames_at_insert _ _ _ _ _ Hw), (state_at_insert _ _ _ _ _ Hw).
    rewrite decide_True by reflexivity. auto.
  - rewrite !app_nil_r. auto.
Qed.

(** X15. While the current socket is open, the chunks of a recorder are
    forwarded in the order they are produced, one binary frame per chunk of
    non-zero size, and the same chunks are appended to the buffer. *)
Theorem chunks_forwarded_in_order s (k r : nat) (ds : list Blob) :
  ws s = Some k ->
  socket_state s k = Some OPEN ->
  frames_sent (run s (chunks r ds)) k
  = frames_sent s k ++ (Binary <$> List.filter has_data ds)
  /\ audioChunks (run s (chunks r ds)) = audioChunks s ++ List.filter has_data ds.
Proof.
  revert s. induction ds as [|d ds IH]; intros s Hk Ho.
  - simpl. now rewrite !app_nil_r.
  - destruct (data_step_open s k r d Hk Ho) as (Hk1 & Ho1 & Hf & Ha).
    change (run s (chunks r (d :: ds)))
      with (run (step s (DataAvailable r d)) (chunks r ds)).
    destruct (IH _ Hk1 Ho1) as [IHf IHa]. rewrite IHf, IHa.
    change (frames_sent (step s (DataAvailable r d)) k)
      with (frames_at (sockets (step s (DataAvailable r d))) k).
    rewrite Hf, Ha. simpl. destruct (has_data d); simpl;
      rewrite <- ?app_assoc, ?app_nil_r; auto.
Qed.

Lemma chunks_forwarded_in_order_witness :
  frames_sent
    (run (run loaded [StartClick "session_a" true; MicGranted true; WsOpen 0])
         (chunks 0 [[Byte.x52]; []; [Byte.x53]])) 0
  = frames_sent (run loaded [StartClick "session_a" true; MicGranted true; WsOpen 0]) 0
    ++ (Binary <$> List.filter has_data [[Byte.x52]; []; [Byte.x53]])
  /\ audioChunks
       (run (run loaded [StartClick "session_a" true; MicGranted true; WsOpen 0])
            (chunks 0 [[Byte.x52]; []; [Byte.x53]]))
     = audioChunks (run loaded [StartClick "session_a" true; MicGranted true; WsOpen 0])
       ++ List.filter has_data [[Byte.x52]; []; [Byte.x53]].
Proof.
  apply (chunks_forwarded_in_order
           (run loaded [StartClick "session_a" true; MicGranted true; WsOpen 0])
           0 0 [[Byte.x52]; []; [Byte.x53]]); reflexivity.
Defined.

Lemma ws_is_open_eq s s' :
  sockets s = sockets s' -> ws s = ws s' -> ws_is_open s = ws_is_open s'.
Proof. unfold ws_is_open, current_socket. now intros -> ->. Qed.

Lemma is_recording_eq s s' :
  recorders s = recorders s' -> mediaRecorder s = mediaRecorder s' ->
  is_recording s = is_recording s'.
Proof. unfold is_recording, current_recorder. now intros -> ->. Qed.

Lemma ws_close_not_open s : ws_is_open (ws_close s) = false.
Proof.
  unfold ws_close, ws_is_open, current_socket.
  destruct (ws s) as [k|] eqn:Ek; simpl; rewrite Ek; [|reflexivity].
  rewrite list_lookup_alter_eq. destruct (sockets s !! k) as [w|]; simpl; [|reflexivity].
  unfold close_socket. destruct (readyState w) eqn:E; simpl; rewrite ?E; reflexivity.
Qed.

Lemma current_shut_eq s s' :
  sockets s = sockets s' -> ws s = ws s' -> current_shut s = current_shut s'.
Proof. unfold current_shut. now intros -> ->. Qed.

Lemma ws_close_shut s : current_shut (ws_close s) = true.
Proof.
  unfold ws_close, current_shut, shut_at, state_at.
  destruct (ws s) as [k|] eqn:Ek; simpl; rewrite Ek; [|reflexivity].
  rewrite list_lookup_alter_eq. destruct (sockets s !! k) as [w|]; simpl; [|reflexivity].
  unfold close_socket. destruct (readyState w) eqn:E; simpl; rewrite ?E; reflexivity.
Qed.

Lemma shut_at_alter_close l j k :
  shut_at l k = true -> shut_at (alter close_socket j l) k = true.
Proof.
  unfold shut_at, state_at. rewrite list_lookup_alter. case_decide; [subst|auto].
  destruct (l !! k) as [w|]; simpl; [|reflexivity].
  unfold close_socket. destruct (readyState w) eqn:E; simpl; rewrite ?E; auto.
Qed.

Lemma shut_at_alter_closed l j k :
  shut_at l k = true -> shut_at (alter (with_readyState CLOSED) j l) k = true.
Proof.
  unfold shut_at, state_at. rewrite list_lookup_alter. case_decide; [subst|auto].
  now destruct (l !! k).
Qed.

Lemma shut_at_alter_open l j k :
  shut_at l k = true -> state_at l j = Some CONNECTING ->
  shut_at (alter (with_readyState OPEN) j l) k = true.
Proof.
  unfold shut_at, state_at. rewrite list_lookup_alter. case_decide; [subst|auto].
  intros H Hc. rewrite Hc in H. discriminate.
Qed.

Lemma shut_at_insert l n k (w : WebSocket) (f : Frame) :
  l !! n = Some w -> shut_at (<[n := with_frame f w]> l) k = shut_at l k.
Proof. intros H. unfold shut_at. now rewrite (state_at_insert _ _ _ _ _ H). Qed.

(** An event that creates no socket leaves [ws] as it is. *)
Lemma ws_keeps s e : keeps_socket e = true -> ws (step s e) = ws s.
Proof. destruct e; intros H; try discriminate; handler_cases; congruence. Qed.

(** A current socket that cannot send stays so under every event the browser
    can deliver that creates no socket. *)
Lemma shut_step s e :
  current_shut s = true -> dispatchable s e = true -> keeps_socket e = true ->
  current_shut (step s e) = true.
Proof.
  intros Hs Hd Hk. unfold current_shut in *. rewrite (ws_keeps s e Hk).
  destruct (ws s) as [c|] eqn:Ec; [|reflexivity].
  revert Hd. unfold dispatchable, socket_state.
  destruct e; try discriminate; handler_cases; intros;
    repeat first
      [ assumption
      | match goal with
        | Hw : ?l !! ?n = Some ?w |- context [shut_at (<[?n := with_frame ?f ?w]> ?l) ?j] =>
            rewrite (shut_at_insert l n j w f Hw)
        end
      | apply shut_at_alter_close
      | apply shut_at_alter_closed
      | apply shut_at_alter_open; [|unfold state_at; congruence] ].
Qed.

Lemma shut_run s es (k : nat) :
  current_shut s = true -> feasible s es = true -> forallb keeps_socket es = true ->
  current_shut (run s es) = true /\ frames_sent (run s es) k = frames_sent s k.
Proof.
  revert s. induction es as [|e es IH]; intros s Hs Hf Hk; [split; [exact Hs | reflexivity]|].
  simpl in Hf, Hk. apply andb_true_iff in Hf as [Hd Hf].
  apply andb_true_iff in Hk as [He Hk].
  pose proof (shut_step s e Hs Hd He) as Hs1.
  rewrite run_cons. destruct (IH _ Hs1 Hf Hk) as [IHs IHf].
  split; [exact IHs|]. rewrite IHf.
  destruct (frames_step s e k) as (extra & Hx & [->|(f & _ & Hw & Ho & _)]).
  - change (frames_sent (step s e) k) with (frames_at (sockets (step s e)) k).
    rewrite Hx. apply app_nil_r.
  - exfalso. unfold current_shut in Hs1. rewrite (ws_keeps s e He), Hw in Hs1.
    unfold shut_at in Hs1. rewrite Ho in Hs1. discriminate.
Qed.

(** X16. A stop click that stops the recorder leaves the recorder not
    recording and the current socket closing or closed.  From then on, as
    long as no start click and no firing timer creates a new socket, no
    event the browser can deliver puts a frame on any socket: the chunk the
    recorder flushes on stop, delivered in that time, is not sent. *)
Theorem final_chunk_after_stop_dropped s :
  is_recording s = true ->
  is_recording (step s StopClick) = false
  /\ ws_is_open (step s StopClick) = false
  /\ current_shut (step s StopClick) = true
  /\ (forall es k,
        feasible (step s StopClick) es = true ->
        forallb keeps_socket es = true ->
        frames_sent (run (step s StopClick) es) k = frames_sent (step s StopClick) k).
Proof.
  intros Hr.
  assert (Hsh : current_shut (step s StopClick) = true).
  { unfold step, stopRecording_click. rewrite Hr.
    set (s1 := recorder_stop _).
    destruct (ws s1) as [k|] eqn:Ek.
    - transitivity (current_shut (ws_close (console_log "Closing WebSocket..." s1)));
        [now apply current_shut_eq | apply ws_close_shut].
    - transitivity (current_shut s1); [now apply current_shut_eq|].
      unfold current_shut. now rewrite Ek. }
  assert (Hc : ws_is_open (step s StopClick) = false).
  { unfold step, stopRecording_click. rewrite Hr.
    set (s1 := recorder_stop _).
    destruct (ws s1) as [k|] eqn:Ek.
    - transitivity (ws_is_open (ws_close (console_log "Closing WebSocket..." s1)));
        [now apply ws_is_open_eq | apply ws_close_not_open].
    - transitivity (ws_is_open s1); [now apply ws_is_open_eq|].
      unfold ws_is_open, current_socket. now rewrite Ek. }
  split; [|split; [exact Hc|split; [exact Hsh|]]].
  - unfold step, stopRecording_click. rewrite Hr. revert Hr.
    unfold is_recording, current_recorder, recorder_stop.
    destruct (mediaRecorder s) as [r|] eqn:Er; [|discriminate].
    destruct (recorders s !! r) as [m|] eqn:Em; [|discriminate]. intros _.
    assert (Hm : forall x, mediaRecorder x = Some r ->
                  recorders x = alter (with_rec_state inactive) r (recorders s) ->
                  match match mediaRecorder x with
                        | Some r0 => recorders x !! r0
                        | None => None
                        end with
                  | Some m0 => match rec_state m0 with recording => true | _ => false end
                  | None => false
                  end = false).
    { intros x -> ->. rewrite list_lookup_alter_eq, Em. reflexivity. }
    unfold ws_close. simpl. rewrite Er. simpl.
    destruct (ws s); apply Hm; solve [exact Er | reflexivity].
  - intros es k Hf Hk. now apply shut_run.
Qed.

Lemma final_chunk_after_stop_dropped_witness :
  frames_sent
    (run (step (run loaded [StartClick "session_a" true; MicGranted true; WsOpen 0;
                            DataAvailable 0 [Byte.x52]])
               StopClick)
         [DataAvailable 0 [Byte.x53]; RecorderStop 0; SpeakerTypeChange "prospect";
          WsClose 0 true]) 0
  = frames_sent
      (step (run loaded [StartClick "session_a" true; MicGranted true; WsOpen 0;
                         DataAvailable 0 [Byte.x52]])
            StopClick) 0.
Proof.
  apply (final_chunk_after_stop_dropped
           (run loaded [StartClick "session_a" true; MicGranted true; WsOpen 0;
                        DataAvailable 0 [Byte.x52]])); reflexivity.
Defined.

End TransportExtras.

Section ReconnectExtras.

Implicit Types s : State.

Lemma alter_snoc {A : Type} (f : A -> A) (l : list A) (x : A) :
  alter f (length l) (l ++ [x]) = l ++ [f x].
Proof. rewrite alter_app_r_alt by lia. now rewrite Nat.sub_diag. Qed.

Lemma lookup_snoc_length {A : Type} (l : list A) (x : A) :
  (l ++ [x]) !! length l = Some x.
Proof. rewrite lookup_app_r by lia. now rewrite Nat.sub_diag. Qed.

(** One round: the oldest timer fires, the socket it creates fails. *)
Lemma retry_round s (d : Z) (rest : list Z) :
  timers s = d :: rest ->
  feasible s [TimerFire; WsError (length (sockets s));
              WsClose (length (sockets s)) false] = true
  /\ timers (run s [TimerFire; WsError (length (sockets s));
                    WsClose (length (sockets s)) false])
     = rest ++ [reconnect_delay]
  /\ sockets (run s [TimerFire; WsError (length (sockets s));
                     WsClose (length (sockets s)) false])
     = sockets s ++ [{| ws_url := wsUrl s; readyState := CLOSED; ws_sent := [] |}]
  /\ wsUrl (run s [TimerFire; WsError (length (sockets s));
                   WsClose (length (sockets s)) false]) = wsUrl s.
Proof.
  intros Ht. unfold run, feasible, dispatchable, socket_state. simpl.
  unfold ws_onerror, ws_onclose, ws_close, set_readyState, connectWebSocket,
    console_log, console_error. rewrite Ht. simpl.
  rewrite !lookup_snoc_length. simpl. rewrite !alter_snoc, !lookup_snoc_length.
  simpl. repeat split.
Qed.

(** X17. The reconnection never gives up.  While a timer is pending and every
    socket a timer creates fails, each round leaves as many timers pending as
    before and adds one more socket for the address of the same session id,
    for any number of rounds. *)
Theorem reconnect_retries_unbounded s (n : nat) :
  timers s <> [] ->
  feasible s (retry_rounds (length (sockets s)) n) = true
  /\ length (timers (run s (retry_rounds (length (sockets s)) n))) = length (timers s)
  /\ sockets (run s (retry_rounds (length (sockets s)) n))
     = sockets s
       ++ replicate n {| ws_url := wsUrl s; readyState := CLOSED; ws_sent := [] |}.
Proof.
  revert s. induction n as [|n IH]; intros s Ht.
  - simpl. now rewrite app_nil_r.
  - destruct (timers s) as [|d rest] eqn:E; [congruence|].
    destruct (retry_round s d rest E) as (Hf & Htm & Hs & Hu).
    set (k := length (sockets s)) in *.
    change (retry_rounds k (S n))
      with ([TimerFire; WsError k; WsClose k false] ++ retry_rounds (S k) n).
    rewrite feasible_app, run_app, Hf.
    set (s1 := run s [TimerFire; WsError k; WsClose k false]) in *.
    assert (Hk : S k = length (sockets s1)).
    { rewrite Hs, length_app. simpl. unfold k. lia. }
    rewrite Hk.
    destruct (IH s1) as (IHf & IHt & IHs).
    { rewrite Htm. now destruct rest. }
    rewrite IHf, IHt, IHs, Htm, Hs, Hu, length_app. simpl.
    repeat split; [lia|]. now rewrite <- app_assoc.
Qed.

Lemma reconnect_retries_unbounded_witness :
  feasible
    (run loaded [StartClick "session_a" true; MicDenied; WsError 0; WsClose 0 false])
    (retry_rounds 1 3) = true
  /\ length (timers
       (run (run loaded [StartClick "session_a" true; MicDenied; WsError 0;
                         WsClose 0 false])
            (retry_rounds 1 3))) = 1
  /\ sockets
       (run (run loaded [StartClick "session_a" true; MicDenied; WsError 0;
                         WsClose 0 false])
            (retry_rounds 1 3))
     = sockets (run loaded [StartClick "session_a" true; MicDenied; WsError 0;
                            WsClose 0 false])
       ++ replicate 3
            {| ws_url := "ws://localhost:8000/ws/audio/session_a/";
               readyState := CLOSED; ws_sent := [] |}.
Proof.
  apply (reconnect_retries_unbounded
           (run loaded [StartClick "session_a" true; MicDenied; WsError 0;
                        WsClose 0 false]) 3).
  discriminate.
Defined.

(** X18. As long as no socket closes abnormally, no reconnection happens:
    from a state with no pending timer, a run of events without an abnormal
    close ends with no pending timer, and it has created one socket per start
    click and no other. *)
Theorem no_reconnect_without_abnormal_close s (es : list Event) :
  timers s = [] ->
  forallb (fun e => negb (is_abnormal_close e)) es = true ->
  timers (run s es) = []
  /\ length (sockets (run s es))
     = length (sockets s) + length (List.filter is_start es).
Proof.
  revert s. induction es as [|e es IH]; intros s Ht H.
  - simpl. split; [exact Ht | lia].
  - simpl in H. apply andb_true_iff in H as [He Hes]. apply negb_true_iff in He.
    rewrite run_cons.
    assert (Ht1 : timers (step s e) = []).
    { destruct (is_timer e) eqn:Et.
      - destruct e; try discriminate. simpl. now rewrite Ht.
      - rewrite timers_frame; assumption. }
    destruct (IH _ Ht1 Hes) as [IHt IHs]. split; [exact IHt|]. rewrite IHs.
    assert (Hl : length (sockets (step s e))
                 = length (sockets s) + (if is_start e then 1 else 0)).
    { destruct e; handler_cases;
        rewrite ?length_insert, ?length_alter, ?length_app; simpl; try lia; congruence. }
    rewrite Hl. simpl. destruct (is_start e); simpl; lia.
Qed.

Lemma no_reconnect_without_abnormal_close_witness :
  timers
    (run loaded
       [StartClick "session_a" true; MicGranted true; WsOpen 0; StopClick;
        WsClose 0 true; TimerFire; StartClick "session_b" true]) = []
  /\ length
       (sockets
          (run loaded
             [StartClick "session_a" true; MicGranted true; WsOpen 0; StopClick;
              WsClose 0 true; TimerFire; StartClick "session_b" true]))
     = length (sockets loaded)
       + length
           (List.filter is_start
              [StartClick "session_a" true; MicGranted true; WsOpen 0; StopClick;
               WsClose 0 true; TimerFire; StartClick "session_b" true]).
Proof.
  apply (no_reconnect_without_abnormal_close loaded
           [StartClick "session_a" true; MicGranted true; WsOpen 0; StopClick;
            WsClose 0 true; TimerFire; StartClick "session_b" true]);
    reflexivity.
Defined.

(** X19. A speaker type chosen while the current socket is still connecting
    is not sent at once; it is what the socket announces when it opens. *)
Theorem speaker_change_deferred_until_open s (k : nat) (v : string) :
  ws s = Some k ->
  socket_state s k = Some CONNECTING ->
  frames_sent (step s (SpeakerTypeChange v)) k = frames_sent s k
  /\ frames_sent (run s [SpeakerTypeChange v; WsOpen k]) k
     = frames_sent s k ++ [SetSpeakerType v].
Proof.
  intros Hk Hc. unfold socket_state in Hc.
  destruct (sockets s !! k) as [w|] eqn:Ew; [|discriminate].
  simpl in Hc. injection Hc as Hc.
  assert (Hno : ws_is_open (set_speakerType v s) = false).
  { unfold ws_is_open, current_socket. simpl. now rewrite Hk, Ew, Hc. }
  assert (H1 : step s (SpeakerTypeChange v) = set_speakerType v s).
  { unfold step, speakerType_change. now rewrite Hno. }
  split; [now rewrite H1|].
  rewrite !run_cons, H1. unfold run, fold_left, step, ws_onopen, ws_send, frames_sent,
    set_readyState, console_log. simpl. rewrite Hk.
  rewrite list_lookup_alter_eq, Ew. simpl.
  rewrite list_lookup_insert_eq
    by (rewrite length_alter; eapply lookup_lt_Some; eassumption).
  reflexivity.
Qed.

Lemma speaker_change_deferred_until_open_witness :
  frames_sent
    (step (run loaded [StartClick "session_a" true; MicGranted true])
          (SpeakerTypeChange "prospect")) 0
  = frames_sent (run loaded [StartClick "session_a" true; MicGranted true]) 0
  /\ frames_sent
       (run (run loaded [StartClick "session_a" true; MicGranted true])
            [SpeakerTypeChange "prospect"; WsOpen 0]) 0
     = frames_sent (run loaded [StartClick "session_a" true; MicGranted true]) 0
       ++ [SetSpeakerType "prospect"].
Proof.
  apply (speaker_change_deferred_until_open
           (run loaded [StartClick "session_a" true; MicGranted true]) 0 "prospect");
    reflexivity.
Defined.

End ReconnectExtras.


Section DisplayExtras.

Implicit Types s : State.

Lemma highlight_in_plain (f : string -> RegExpResult) (kws : list Keyword) (text : string) :
  forallb plain kws = true ->
  highlightKeywordsInText_in f kws text = highlightKeywordsInText kws text.
Proof.
  unfold highlightKeywordsInText_in, highlightKeywordsInText.
  generalize (Some text). induction kws as [|kw kws IH]; intros acc H; [reflexivity|].
  simpl in *. apply andb_true_iff in H as [Hk Hs]. rewrite <- (IH _ Hs).
  f_equal. unfold highlight_step_in, highlight_step. destruct acc; [|reflexivity].
  unfold plain in Hk. now rewrite Hk.
Qed.

Lemma no_placeholder_snoc (l : list TranscriptNode) (n : TranscriptNode) :
  existsb is_placeholder (l ++ [n]) = existsb is_placeholder l || is_placeholder n.
Proof. rewrite existsb_app. simpl. now rewrite orb_false_r. Qed.

Lemma tidy_lines (l : list TranscriptNode) :
  existsb is_placeholder l = false -> tidy l = true.
Proof.
  intros H. unfold tidy. rewrite H.
  destruct l as [|[] [|]]; reflexivity.
Qed.

(** Where the selector finds nothing there is no placeholder. *)
Lemma unselected_no_placeholder (e : Engine) (l : list TranscriptNode) :
  existsb (selects_placeholder e) l = false -> existsb is_placeholder l = false.
Proof.
  induction l as [|n l IH]; [reflexivity|]. simpl. intros H.
  apply orb_false_iff in H as [Hn Hl]. rewrite (IH Hl).
  destruct n; [discriminate | reflexivity].
Qed.

(** One transcription message while the cached words are plain. *)
Lemma transcription_step s (k : nat) (m : string * string) (html : string) :
  forallb plain (keywords s) = true ->
  highlightKeywordsInText (keywords s) m.1 = Some html ->
  transcriptionDisplay (step s (WsMessage k (Transcription m.1 m.2)))
  = (if existsb (selects_placeholder (page_engine (page s))) (transcriptionDisplay s)
     then [] else transcriptionDisplay s)
    ++ [transcription_line m.2 html]
  /\ keywords (step s (WsMessage k (Transcription m.1 m.2))) = keywords s
  /\ page (step s (WsMessage k (Transcription m.1 m.2))) = page s.
Proof.
  intros Hp Hh. unfold step, ws_onmessage, displayTranscription. simpl.
  rewrite (highlight_in_plain _ _ _ Hp), Hh. repeat split.
Qed.

Lemma transcriptions_append s (k : nat) (ms : list (string * string)) :
  forallb plain (keywords s) = true ->
  forallb (shows_no_grey (page_engine (page s)) (keywords s)) ms = true ->
  existsb (selects_placeholder (page_engine (page s))) (transcriptionDisplay s) = false ->
  exists lines,
    Forall2 (fun m n => shown_line (keywords s) m = Some n) ms lines
    /\ transcriptionDisplay (run s (transcriptions k ms)) = transcriptionDisplay s ++ lines.
Proof.
  revert s. induction ms as [|m ms IH]; intros s Hp Hg Hn.
  - exists []. split; [constructor | now rewrite app_nil_r].
  - simpl in Hg. apply andb_true_iff in Hg as [Hm Hg].
    unfold shows_no_grey in Hm.
    destruct (highlightKeywordsInText (keywords s) m.1) as [html|] eqn:Hh; [|discriminate].
    apply negb_true_iff in Hm.
    destruct (transcription_step s k m html Hp Hh) as (Hd & Hk & Hpg).
    change (run s (transcriptions k (m :: ms)))
      with (run (step s (WsMessage k (Transcription m.1 m.2))) (transcriptions k ms)).
    rewrite Hn in Hd.
    destruct (IH (step s (WsMessage k (Transcription m.1 m.2)))) as (lines & Hl & Hr).
    + now rewrite Hk.
    + now rewrite Hk, Hpg.
    + rewrite Hpg, Hd, existsb_app, Hn. cbn [existsb orb]. now rewrite Hm.
    + exists (transcription_line m.2 html :: lines). split.
      * constructor; [unfold shown_line; now rewrite Hh | now rewrite Hk in Hl].
      * rewrite Hr, Hd. now rewrite <- app_assoc.
Qed.

(** X20. While the cached keywords are plain words, and the markup of the
    lines to show holds no grey paragraph, transcriptions are shown in the
    order they arrive, each as one line styled by its speaker and
    highlighted with the cached keywords.  The first one empties the area
    when the selector finds a grey paragraph in it, the placeholder or one
    inside a line shown before; otherwise the lines already shown stay. *)
Theorem transcriptions_in_order s (k : nat) (m : string * string)
    (ms : list (string * string)) :
  forallb plain (keywords s) = true ->
  forallb (shows_no_grey (page_engine (page s)) (keywords s)) (m :: ms) = true ->
  exists lines,
    Forall2 (fun m n => shown_line (keywords s) m = Some n) (m :: ms) lines
    /\ transcriptionDisplay (run s (transcriptions k (m :: ms)))
       = (if existsb (selects_placeholder (page_engine (page s))) (transcriptionDisplay s)
          then [] else transcriptionDisplay s)
         ++ lines.
Proof.
  intros Hp Hg. simpl in Hg. apply andb_true_iff in Hg as [Hm Hg].
  unfold shows_no_grey in Hm.
  destruct (highlightKeywordsInText (keywords s) m.1) as [html|] eqn:Hh; [|discriminate].
  apply negb_true_iff in Hm.
  destruct (transcription_step s k m html Hp Hh) as (Hd & Hk & Hpg).
  change (run s (transcriptions k (m :: ms)))
    with (run (step s (WsMessage k (Transcription m.1 m.2))) (transcriptions k ms)).
  destruct (transcriptions_append (step s (WsMessage k (Transcription m.1 m.2))) k ms)
    as (lines & Hl & Hr).
  - now rewrite Hk.
  - now rewrite Hk, Hpg.
  - rewrite Hpg, Hd, existsb_app. cbn [existsb]. rewrite Hm.
    destruct (existsb _ (transcriptionDisplay s)) eqn:E; simpl; [reflexivity | now rewrite E].
  - exists (transcription_line m.2 html :: lines). split.
    + constructor; [unfold shown_line; now rewrite Hh | now rewrite Hk in Hl].
    + rewrite Hr, Hd. now rewrite <- app_assoc.
Qed.

Lemma transcriptions_in_order_witness :
  exists lines,
    Forall2 (fun m n => shown_line (keywords (run loaded
                          [KeywordsLoaded (RespOk [keyword_of 1 "cat"])])) m = Some n)
            [("a Cat", "rep"); ("hello", "prospect")] lines
    /\ transcriptionDisplay
         (run (run loaded [KeywordsLoaded (RespOk [keyword_of 1 "cat"])])
              (transcriptions 0 [("a Cat", "rep"); ("hello", "prospect")]))
       = (if existsb (selects_placeholder
                        (page_engine
                           (page (run loaded
                                    [KeywordsLoaded (RespOk [keyword_of 1 "cat"])]))))
                     (transcriptionDisplay
                        (run loaded [KeywordsLoaded (RespOk [keyword_of 1 "cat"])]))
          then []
          else transcriptionDisplay
                 (run loaded [KeywordsLoaded (RespOk [keyword_of 1 "cat"])]))
         ++ lines.
Proof.
  apply (transcriptions_in_order
           (run loaded [KeywordsLoaded (RespOk [keyword_of 1 "cat"])]) 0
           ("a Cat", "rep") [("hello", "prospect")]); reflexivity.
Defined.

(** A cached word that RegExp rejects: the message empties the area if the
    placeholder is in it and shows no line. *)
Example rejected_word_shows_no_line :
  transcriptionDisplay
    (run loaded [KeywordsLoaded (RespOk [keyword_of 1 "c++"]);
                 WsMessage 0 (Transcription "hello" "rep")]) = [].
Proof. reflexivity. Qed.

Lemma tidy_step s e :
  tidy (transcriptionDisplay s) = true -> tidy (transcriptionDisplay (step s e)) = true.
Proof.
  intros H. destruct e; handler_cases; try assumption; try reflexivity.
  all: apply tidy_lines; rewrite no_placeholder_snoc; simpl; rewrite orb_false_r;
    eapply unselected_no_placeholder; eassumption.
Qed.

(** X21. When the page is loaded with the placeholder alone, or with lines
    only, in the transcription area, the area stays so whatever events are
    delivered: the placeholder is never shown beside a transcription line. *)
Theorem transcription_area_tidy (p : Page) (sid : string) (es : list Event) :
  tidy (page_transcription p) = true ->
  tidy (transcriptionDisplay (run (initial p sid) es)) = true.
Proof.
  intros H.
  apply (run_invariant (fun s => tidy (transcriptionDisplay s) = true)).
  - apply tidy_step.
  - exact H.
Qed.

Lemma transcription_area_tidy_witness :
  tidy (transcriptionDisplay
          (run (initial example_page "session_0")
               [StartClick "session_a" true; MicGranted true; WsOpen 0;
                WsMessage 0 (Transcription "hello" "rep");
                StopClick; StartClick "session_b" true; MicGranted true]))
  = true.
Proof.
  apply (transcription_area_tidy example_page "session_0"
           [StartClick "session_a" true; MicGranted true; WsOpen 0;
            WsMessage 0 (Transcription "hello" "rep");
            StopClick; StartClick "session_b" true; MicGranted true]).
  reflexivity.
Defined.

(** X22. Alerts are shown most recent first, in front of whatever the alert
    area held, the placeholder included; a talking point that is absent or
    empty is not shown; and when the animation of the newest box ends, the
    area is as it was before that alert. *)
Theorem alerts_most_recent_first s (k : nat)
    (ms : list (string * option string * string * string)) :
  alertDisplay (run s (alerts k ms)) = rev (alert_box <$> ms) ++ alertDisplay s
  /\ (forall m, alertDisplay (run s (alerts k [m] ++ [AlertAnimationEnd 0]))
                = alertDisplay s)
  /\ (forall kw full sp, alert_box (kw, Some EmptyString, full, sp)
                         = alert_box (kw, None, full, sp)).
Proof.
  split; [|split; [reflexivity | reflexivity]].
  revert s. induction ms as [|m ms IH]; intros s; [reflexivity|].
  change (run s (alerts k (m :: ms)))
    with (run (step s (WsMessage k (Alert m.1.1.1 m.1.1.2 m.1.2 m.2))) (alerts k ms)).
  rewrite IH. rewrite fmap_cons. simpl. now rewrite <- app_assoc.
Qed.

End DisplayExtras.
